(** * The video-acquisition pipeline of the YouTube channel widget

    A shallow embedding of [class YouTubeChannelVideos] (the version with
    fallback videos): constructor, [init], [fetchVideos] and the two channel
    resolution steps, [saveToCache], [getFromCache],
    [createFallbackVideos], and [renderVideos], [showLoading] and
    [showError].

    JavaScript values are a small untyped universe [jsval]; the widget's
    methods are computations in a state-and-exception monad over a [world]
    made of the [localStorage] contents, the clock and the trace of calls the
    widget made to its collaborators (console, storage, network, render
    target).

    What the model keeps and leaves out:
    - numbers are integers, with [NaN] apart; times are milliseconds;
    - a run of [init] is followed from its call to the settling of its
      promise chain, the awaited steps in their order; a result [Throw e] of
      the chain is the rejection left unhandled;
    - in the pipeline the markup is not built: a call of [renderVideos] is
      an event carrying its argument, followed by the property reads that can
      make it raise, without the conversion to text of what is read; the
      element of the loading indicator is taken to exist;
    - what the calls do to the page is a model of its own, [Page], which
      keeps the loading indicator and the elements of the container with the
      texts their markup interpolates, conversions to text included;
    - [JSON], [Date], [Number], [querySelector], [fetch] and the quota of
      the storage are parameters, gathered in [Browser]. *)

From Stdlib Require Import ZArith String Ascii List Bool Lia.
From stdpp Require Import gmap strings list pretty.

Set Warnings "-register-all".

Open Scope string_scope.
Open Scope Z_scope.
Open Scope list_scope.

(** ** JavaScript values *)

(** Numbers are the integers the widget computes with (millisecond counts,
    lengths, sizes), exact below 2^53, plus [NaN]; fractions and infinities
    are not represented. A [Date] object carries its time value, [None] for
    an invalid date. *)
Inductive jsval : Type :=
| JUndefined
| JNull
| JBool (b : bool)
| JNum (n : Z)
| JNaN
| JStr (s : string)
| JArr (items : list jsval)
| JObj (props : list (string * jsval))
| JDate (time : option Z).

(** What a [throw] carries: [new Error(msg)], or one of the errors raised by
    the runtime itself. *)
Inductive jserror : Type :=
| Error (msg : string)
| TypeError
| SyntaxError
| NetworkError
| QuotaExceededError.

Inductive result (A : Type) : Type :=
| Ok (a : A)
| Throw (e : jserror).
Arguments Ok {A} a.
Arguments Throw {A} e.

(** [!v] is [negb (truthy v)]. *)
Definition truthy (v : jsval) : bool :=
  match v with
  | JUndefined | JNull | JNaN => false
  | JBool b => b
  | JNum n => negb (Z.eqb n 0)
  | JStr s => negb (String.eqb s "")
  | JArr _ | JObj _ | JDate _ => true
  end.

(** [typeof v === 'object'] *)
Definition typeof_object (v : jsval) : bool :=
  match v with
  | JNull | JArr _ | JObj _ | JDate _ => true
  | _ => false
  end.

(** [v === 0] *)
Definition strict_eq_zero (v : jsval) : bool :=
  match v with
  | JNum 0 => true
  | _ => false
  end.

(** [a || b] *)
Definition js_or (a b : jsval) : jsval := if truthy a then a else b.

Fixpoint lookup_prop (name : string) (props : list (string * jsval)) : jsval :=
  match props with
  | [] => JUndefined
  | (k, v) :: rest => if String.eqb k name then v else lookup_prop name rest
  end.

(** [v.name], for the property names the widget reads; none of them is
    inherited from a prototype except [length] of arrays and strings.
    Reading a property of [undefined] or [null] raises a [TypeError]. *)
Definition get_prop (v : jsval) (name : string) : result jsval :=
  match v with
  | JUndefined | JNull => Throw TypeError
  | JObj props => Ok (lookup_prop name props)
  | JArr items =>
      Ok (if String.eqb name "length" then JNum (Z.of_nat (length items))
          else JUndefined)
  | JStr s =>
      Ok (if String.eqb name "length" then JNum (Z.of_nat (String.length s))
          else JUndefined)
  | _ => Ok JUndefined
  end.

(** [v[0]] *)
Definition get_first (v : jsval) : result jsval :=
  match v with
  | JUndefined | JNull => Throw TypeError
  | JObj props => Ok (lookup_prop "0" props)
  | JArr items => Ok (hd JUndefined items)
  | JStr s =>
      Ok (match s with
          | EmptyString => JUndefined
          | String c _ => JStr (String c EmptyString)
          end)
  | _ => Ok JUndefined
  end.

(** [s.replace(c, '')] for a one-character pattern: the first occurrence is
    dropped. *)
Fixpoint remove_first (c : ascii) (s : string) : string :=
  match s with
  | EmptyString => EmptyString
  | String a rest => if Ascii.eqb a c then rest else String a (remove_first c rest)
  end.

(** ** The browser

    Built-ins whose algorithms are not part of the widget are taken as given:
    the JSON codec ([JSON_parse] answers [None] where [JSON.parse] throws),
    the conversion of a string to a number ([None] is [NaN]), the date
    parser behind [new Date(v)] and the date printer; so are the document
    ([querySelector] tells whether the selector finds an element), the
    network ([fetch_response] answers [None] where [fetch] rejects, and a
    response whose [body] is [None] rejects on [json()]) and the storage
    quota. *)
Record response : Type := { ok : bool; body : option jsval }.

Class Browser : Type := {
  JSON_parse : string -> option jsval;
  JSON_stringify : jsval -> string;
  StringToNumber : string -> option Z;
  Date_parse : jsval -> option Z;
  Date_toString : option Z -> string;
  querySelector : string -> bool;
  fetch_response : string -> option response;
  fetch_latency : string -> Z;
  quota_exceeded : gmap string string -> string -> string -> bool
}.

(** Calls the widget makes to its collaborators, in the order it makes them.
    What [renderVideos], [showLoading] and [showError] write into the page is
    presentation: each call is one event carrying its argument. *)
Inductive event : Type :=
| EConsoleError (msg : string) (err : option jserror)
| EConsoleLog (msg : string)
| EGetItem (key : string)
| ESetItem (key value : string)
| ERemoveItem (key : string)
| EFetch (url : string)
| EShowLoading
| ERenderVideos (videos : jsval)
| EShowError (msg : string).

Record world : Type := {
  store : gmap string string;
  clock : Z;
  trace : list event
}.

Definition emit (e : event) (w : world) : world :=
  {| store := store w; clock := clock w; trace := trace w ++ [e] |}.

(** ** Computations *)

Definition M (A : Type) : Type := world -> result A * world.

Definition ret {A} (a : A) : M A := fun w => (Ok a, w).

Definition throw {A} (e : jserror) : M A := fun w => (Throw e, w).

Definition bind {A B} (m : M A) (k : A -> M B) : M B :=
  fun w =>
    match m w with
    | (Ok a, w') => k a w'
    | (Throw e, w') => (Throw e, w')
    end.

(** [try { body } catch (error) { handler }] *)
Definition try_catch {A} (body : M A) (handler : jserror -> M A) : M A :=
  fun w =>
    match body w with
    | (Ok a, w') => (Ok a, w')
    | (Throw e, w') => handler e w'
    end.

Definition lift {A} (r : result A) : M A := fun w => (r, w).

Definition log (e : event) : M unit := fun w => (Ok tt, emit e w).

Declare Scope js_scope.
Delimit Scope js_scope with js.
Notation "'let!' x ':=' m 'in' k" := (bind m (fun x => k))
  (at level 10, x name, m at level 100, k at level 200) : js_scope.
Notation "'do!' m 'in' k" := (bind m (fun _ => k))
  (at level 10, m at level 100, k at level 200) : js_scope.
Open Scope js_scope.

(** [p.then(onFulfilled).catch(onRejected)]: a rejection of [p] and an
    exception thrown by [onFulfilled] both reach [onRejected]; an exception
    thrown by [onRejected] is left as the computation's [Throw], the
    unhandled rejection of the chain. *)
Definition then_catch {A} (p : M A) (onFulfilled : A -> M unit)
    (onRejected : jserror -> M unit) : M unit :=
  try_catch (bind p onFulfilled) onRejected.

Fixpoint mapM {A B} (f : A -> M B) (l : list A) : M (list B) :=
  match l with
  | [] => ret []
  | x :: rest => let! y := f x in let! ys := mapM f rest in ret (y :: ys)
  end.

(** [array.map((x, index) => f(x, index))], indices counted from [i]. *)
Fixpoint mapM_from {A B} (i : Z) (f : A -> Z -> M B) (l : list A) : M (list B) :=
  match l with
  | [] => ret []
  | x :: rest =>
      let! y := f x i in let! ys := mapM_from (i + 1) f rest in ret (y :: ys)
  end.

Section Widget.

Context {B : Browser}.

(** ** Conversions *)

(** Sequencing of conversions that can raise. *)
Definition and_then {A C} (r : result A) (k : A -> result C) : result C :=
  match r with
  | Ok a => k a
  | Throw e => Throw e
  end.

(** The object has a property of its own under [name]. *)
Fixpoint has_own (name : string) (props : list (string * jsval)) : bool :=
  match props with
  | [] => false
  | (k, _) :: rest => String.eqb k name || has_own name rest
  end.

(** The text of a value, [None] where turning it into text raises. An
    object is turned into text by its [toString] method, or else its
    [valueOf]; a property [toString] of the object's own hides the inherited
    method, no property value here is a function, and the inherited
    [valueOf] answers the object itself: such an object has no text. The
    elements of an array are joined, [undefined] and [null] as the empty
    text. *)
Fixpoint text_of (v : jsval) : option string :=
  match v with
  | JUndefined => Some "undefined"
  | JNull => Some "null"
  | JBool true => Some "true"
  | JBool false => Some "false"
  | JNum n => Some (pretty n)
  | JNaN => Some "NaN"
  | JStr s => Some s
  | JArr items =>
      match
        (fix elements (l : list jsval) : option (list string) :=
           match l with
           | [] => Some []
           | x :: rest =>
               match
                 match x with
                 | JUndefined | JNull => Some ""
                 | _ => text_of x
                 end,
                 elements rest
               with
               | Some text, Some texts => Some (text :: texts)
               | _, _ => None
               end
           end) items
      with
      | Some texts => Some (String.concat "," texts)
      | None => None
      end
  | JObj props =>
      if has_own "toString" props then None else Some "[object Object]"
  | JDate t => Some (Date_toString t)
  end.

(** [String(v)], as template literals and [+] apply it. *)
Definition to_string (v : jsval) : result string :=
  match text_of v with
  | Some s => Ok s
  | None => Throw TypeError
  end.

(** The primitive value of [v] for [+] and for a comparison: objects and
    arrays become their text, and so does a date for [+]. *)
Definition to_primitive (v : jsval) : result jsval :=
  match v with
  | JArr _ | JObj _ | JDate _ => and_then (to_string v) (fun s => Ok (JStr s))
  | _ => Ok v
  end.

(** [Number(v)]; [None] is [NaN]. *)
Definition to_number (v : jsval) : result (option Z) :=
  match v with
  | JUndefined | JNaN => Ok None
  | JNull => Ok (Some 0)
  | JBool b => Ok (Some (if b then 1 else 0))
  | JNum n => Ok (Some n)
  | JStr s => Ok (StringToNumber s)
  | JArr _ | JObj _ => and_then (to_string v) (fun s => Ok (StringToNumber s))
  | JDate t => Ok t
  end.

(** [a + b]: objects are first turned into primitive values, [a] before
    [b]; a string operand makes it a concatenation, anything else an
    addition of numbers. *)
Definition js_add (a b : jsval) : result jsval :=
  and_then (to_primitive a) (fun pa =>
  and_then (to_primitive b) (fun pb =>
    match pa, pb with
    | JStr s, _ => and_then (to_string pb) (fun t => Ok (JStr (s +:+ t)))
    | _, JStr s => and_then (to_string pa) (fun t => Ok (JStr (t +:+ s)))
    | _, _ =>
        and_then (to_number pa) (fun x =>
        and_then (to_number pb) (fun y =>
          match x, y with
          | Some x, Some y => Ok (JNum (x + y))
          | _, _ => Ok JNaN
          end))
    end)).

(** [n > v] and [v > n] with a number on one side: the other side is
    converted to a number and [NaN] compares false. *)
Definition num_gt (n : Z) (v : jsval) : result bool :=
  and_then (to_number v) (fun x =>
    Ok (match x with
        | Some x => Z.ltb x n
        | None => false
        end)).

Definition gt_num (v : jsval) (n : Z) : result bool :=
  and_then (to_number v) (fun x =>
    Ok (match x with
        | Some x => Z.ltb n x
        | None => false
        end)).

(** ** Collaborators *)

Definition Date_now : M Z := fun w => (Ok (clock w), w).

Definition console_error (msg : string) (err : option jserror) : M unit :=
  log (EConsoleError msg err).

Definition console_log (msg : string) : M unit := log (EConsoleLog msg).

Definition localStorage_getItem (key : string) : M (option string) :=
  fun w => (Ok (store w !! key), emit (EGetItem key) w).

(** [setItem] throws when the quota is exceeded and then stores nothing. *)
Definition localStorage_setItem (key value : string) : M unit :=
  fun w =>
    let w' := emit (ESetItem key value) w in
    if quota_exceeded (store w) key value then (Throw QuotaExceededError, w')
    else (Ok tt, {| store := <[key := value]> (store w');
                    clock := clock w';
                    trace := trace w' |}).

Definition localStorage_removeItem (key : string) : M unit :=
  fun w =>
    let w' := emit (ERemoveItem key) w in
    (Ok tt, {| store := delete key (store w');
               clock := clock w';
               trace := trace w' |}).

(** [await fetch(url)]: the request is issued, time passes, and the promise
    settles with the response or rejects. *)
Definition fetch (url : string) : M response :=
  fun w =>
    let w' := {| store := store w;
                 clock := clock w + fetch_latency url;
                 trace := trace w ++ [EFetch url] |} in
    match fetch_response url with
    | Some r => (Ok r, w')
    | None => (Throw NetworkError, w')
    end.

(** [await response.json()] *)
Definition response_json (r : response) : M jsval :=
  match body r with
  | Some v => ret v
  | None => throw SyntaxError
  end.

Definition JSON_parse_or_throw (s : string) : M jsval :=
  match JSON_parse s with
  | Some v => ret v
  | None => throw SyntaxError
  end.

(** The page is taken to carry the loading indicator that [showLoading],
    [showError] and [renderVideos] show or hide. *)
Definition showLoading : M unit := log EShowLoading.

Definition showError (message : string) : M unit := log (EShowError message).

(** ** The widget *)

Record options : Type := {
  apiKey : string;
  channelId : string;
  channelUsername : string;
  maxResults : Z;
  containerSelector : string;
  cacheExpiration : Z;
  featuredVideo : bool;
  fallbackVideos : jsval
}.

Record YouTubeChannelVideos : Type := {
  opts : options;
  container : bool;
  cacheKey : string
}.

(** The options are typed: the identifier and the handle are strings, which
    the template literal of the cache key prints as they are. *)
Definition constructor (o : options) : YouTubeChannelVideos :=
  {| opts := o;
     container := querySelector (containerSelector o);
     cacheKey :=
       "youtube-videos-" +:+
       (if truthy (JStr (channelId o)) then channelId o
        else channelUsername o) |}.

Section Methods.

Variable this : YouTubeChannelVideos.

Let o : options := opts this.

(** [!data.items || data.items.length === 0] *)
Definition items_absent (data : jsval) : M bool :=
  let! items := lift (get_prop data "items") in
  if negb (truthy items) then ret true
  else
    let! len := lift (get_prop items "length") in
    ret (strict_eq_zero len).

Definition getChannelIdFromHandle : M jsval :=
  try_catch
    (let username := remove_first "@" (channelUsername o) in
     let! response :=
       fetch ("https://www.googleapis.com/youtube/v3/search?part=snippet&q="
              +:+ username +:+ "&type=channel&maxResults=1&key=" +:+ apiKey o) in
     if negb (ok response) then throw (Error "Failed to fetch channel by handle")
     else
       let! data := response_json response in
       let! none := items_absent data in
       if none then throw (Error "Channel not found by handle")
       else
         let! items := lift (get_prop data "items") in
         let! item := lift (get_first items) in
         let! snippet := lift (get_prop item "snippet") in
         lift (get_prop snippet "channelId"))
    (fun error =>
       do! console_error "Error getting channel ID from handle:" (Some error) in
       ret JNull).

Definition getChannelIdFromUsername : M jsval :=
  try_catch
    (let! response :=
       fetch ("https://www.googleapis.com/youtube/v3/channels?part=id&forUsername="
              +:+ channelUsername o +:+ "&key=" +:+ apiKey o) in
     if negb (ok response) then throw (Error "Failed to fetch channel ID")
     else
       let! data := response_json response in
       let! none := items_absent data in
       if none then getChannelIdFromHandle
       else
         let! items := lift (get_prop data "items") in
         let! item := lift (get_first items) in
         lift (get_prop item "id"))
    (fun error =>
       do! console_error "Error getting channel ID from username:" (Some error) in
       ret JNull).

(** The callback of [videosData.items.map] in [fetchVideos]. *)
Definition videoFromItem (item : jsval) : M jsval :=
  let! snippet := lift (get_prop item "snippet") in
  let! resourceId := lift (get_prop snippet "resourceId") in
  let! videoId := lift (get_prop resourceId "videoId") in
  let! title := lift (get_prop snippet "title") in
  let! description := lift (get_prop snippet "description") in
  let! thumbnails := lift (get_prop snippet "thumbnails") in
  let! high := lift (get_prop thumbnails "high") in
  let! medium := lift (get_prop thumbnails "medium") in
  let! default := lift (get_prop thumbnails "default") in
  let! publishedAt := lift (get_prop snippet "publishedAt") in
  let! channelTitle := lift (get_prop snippet "channelTitle") in
  ret (JObj [("id", videoId);
             ("title", title);
             ("description", description);
             ("thumbnail", js_or (js_or high medium) default);
             ("publishedAt", JDate (Date_parse publishedAt));
             ("channelTitle", channelTitle)]).

(** [items.map(f)]: only arrays have a [map] method among the values a JSON
    body can hold; calling the missing method raises a [TypeError]. *)
Definition array_map (f : jsval -> M jsval) (items : jsval) : M jsval :=
  match items with
  | JArr l => let! l' := mapM f l in ret (JArr l')
  | _ => throw TypeError
  end.

Definition fetchVideos : M jsval :=
  try_catch
    (let! channel :=
       (if negb (truthy (JStr (channelId o))) && truthy (JStr (channelUsername o))
        then getChannelIdFromUsername
        else ret (JStr (channelId o))) in
     if negb (truthy channel) then throw (Error "Could not determine channel ID")
     else
       let! id := lift (to_string channel) in
       let! channelResponse :=
         fetch ("https://www.googleapis.com/youtube/v3/channels?part=contentDetails&id="
                +:+ id +:+ "&key=" +:+ apiKey o) in
       if negb (ok channelResponse) then throw (Error "Failed to fetch channel data")
       else
         let! channelData := response_json channelResponse in
         let! none := items_absent channelData in
         if none then throw (Error "Channel not found")
         else
           let! items := lift (get_prop channelData "items") in
           let! item := lift (get_first items) in
           let! contentDetails := lift (get_prop item "contentDetails") in
           let! relatedPlaylists := lift (get_prop contentDetails "relatedPlaylists") in
           let! uploadsPlaylistId := lift (get_prop relatedPlaylists "uploads") in
           let! playlistId := lift (to_string uploadsPlaylistId) in
           let! videosResponse :=
             fetch ("https://www.googleapis.com/youtube/v3/playlistItems?part=snippet&maxResults="
                    +:+ pretty (maxResults o) +:+ "&playlistId="
                    +:+ playlistId +:+ "&key=" +:+ apiKey o) in
           if negb (ok videosResponse) then throw (Error "Failed to fetch videos")
           else
             let! videosData := response_json videosResponse in
             let! empty := items_absent videosData in
             if empty then ret (JArr [])
             else
               let! videoItems := lift (get_prop videosData "items") in
               array_map videoFromItem videoItems)
    (fun error =>
       do! console_error "Error in fetchVideos:" (Some error) in
       throw error).

Definition saveToCache (videos : jsval) : M unit :=
  try_catch
    (let! now := Date_now in
     let cacheData := JObj [("videos", videos); ("timestamp", JNum now)] in
     localStorage_setItem (cacheKey this) (JSON_stringify cacheData))
    (fun error => console_error "Error saving to cache:" (Some error)).

Definition getFromCache : M jsval :=
  try_catch
    (let! cacheData := localStorage_getItem (cacheKey this) in
     match cacheData with
     | None => ret JNull
     | Some text =>
         if negb (truthy (JStr text)) then ret JNull
         else
           let! parsed := JSON_parse_or_throw text in
           let! videos := lift (get_prop parsed "videos") in
           let! timestamp := lift (get_prop parsed "timestamp") in
           let! expirationTime :=
             lift (js_add timestamp (JNum (cacheExpiration o * 1000))) in
           let! now := Date_now in
           let! expired := lift (num_gt now expirationTime) in
           if expired then
             do! localStorage_removeItem (cacheKey this) in
             ret JNull
           else ret videos
     end)
    (fun error =>
       do! console_error "Error getting from cache:" (Some error) in
       ret JNull).

(** The callback of [fallbackVideos.map] in [createFallbackVideos]. The
    identifier is turned into text for the watch URL, when the entry gives
    no URL, and for the address of the thumbnail. *)
Definition fallbackVideo (video : jsval) (index : Z) : M jsval :=
  let! videoId :=
    (if typeof_object video then lift (get_prop video "id") else ret video) in
  let! videoTitle :=
    (if typeof_object video then
       let! title := lift (get_prop video "title") in
       ret (if truthy title then title
            else JStr ("Video " +:+ pretty (index + 1)))
     else ret (JStr ("Video " +:+ pretty (index + 1)))) in
  let! videoUrl :=
    (let! given :=
       (if typeof_object video then lift (get_prop video "url")
        else ret JUndefined) in
     if typeof_object video && truthy given then ret given
     else
       let! id := lift (to_string videoId) in
       ret (JStr ("https://www.youtube.com/watch?v=" +:+ id))) in
  let! id := lift (to_string videoId) in
  let! now := Date_now in
  ret (JObj [("id", videoId);
             ("title", videoTitle);
             ("description", JStr "");
             ("thumbnail",
              JObj [("url", JStr ("https://i.ytimg.com/vi/" +:+ id
                                  +:+ "/hqdefault.jpg"));
                    ("width", JNum 480);
                    ("height", JNum 360)]);
             ("publishedAt", JDate (Some now));
             ("channelTitle", JStr "Alaan TV Channel");
             ("url", videoUrl)]).

Definition createFallbackVideos : M jsval :=
  let! none :=
    (if negb (truthy (fallbackVideos o)) then ret true
     else
       let! len := lift (get_prop (fallbackVideos o) "length") in
       ret (strict_eq_zero len)) in
  if none then ret (JArr [])
  else
    match fallbackVideos o with
    | JArr l => let! l' := mapM_from 0 fallbackVideo l in ret (JArr l')
    | _ => throw TypeError
    end.

(** The reads [renderVideos] makes of one record for its card: [video.url],
    [video.thumbnail.url] and [video.title]. What is read goes into the
    markup of the card, which is not built: the conversion of these values
    to text is not followed. *)
Definition videoCard (video : jsval) : M unit :=
  let! url := lift (get_prop video "url") in
  let! thumbnail := lift (get_prop video "thumbnail") in
  let! src := lift (get_prop thumbnail "url") in
  let! title := lift (get_prop video "title") in
  ret tt.

(** Of [renderVideos] the call is kept, and what can make it raise a
    [TypeError] half-way: [videos.slice(..).forEach] on a value that is not
    an array, and the reads of a card on a record that is [null] or has no
    thumbnail. The featured record is read like the records of the grid. *)
Definition renderVideos (videos : jsval) : M unit :=
  do! log (ERenderVideos videos) in
  match videos with
  | JArr l => let! cards := mapM videoCard l in ret tt
  | _ => throw TypeError
  end.

(** [videos.length > 0] *)
Definition nonempty (videos : jsval) : M bool :=
  let! len := lift (get_prop videos "length") in
  lift (gt_num len 0).

(** The two callbacks of [init]'s promise chain. *)
Definition onFulfilled (videos : jsval) : M unit :=
  let! some :=
    (if truthy videos then nonempty videos else ret false) in
  if some then
    do! saveToCache videos in
    renderVideos videos
  else
    let! fallback := createFallbackVideos in
    let! usable := nonempty fallback in
    if usable then
      do! console_log "Using fallback videos" in
      renderVideos fallback
    else showError "No videos found".

Definition onRejected (error : jserror) : M unit :=
  do! console_error "Error fetching YouTube videos:" (Some error) in
  let! fallback := createFallbackVideos in
  let! usable := nonempty fallback in
  if usable then
    do! console_log "Using fallback videos due to API error" in
    renderVideos fallback
  else showError "Failed to load videos".

(** [init] run to the end of its promise chain. *)
Definition init : M unit :=
  if negb (container this) then
    console_error "YouTube container element not found" None
  else if negb (truthy (JStr (apiKey o))) then
    console_error "YouTube API key is required" None
  else if negb (truthy (JStr (channelId o)))
          && negb (truthy (JStr (channelUsername o))) then
    console_error "Either channelId or channelUsername is required" None
  else
    let! cachedVideos := getFromCache in
    if truthy cachedVideos then renderVideos cachedVideos
    else
      do! showLoading in
      then_catch fetchVideos onFulfilled onRejected.

End Methods.

End Widget.

(** ** The page

    What [renderVideos], [showLoading] and [showError] do to the page: the
    display of the loading indicator and the children of the container. An
    element is kept as its kind and the texts its markup interpolates; here
    the values read from the records are turned into text, as the template
    literals do. *)

Module Page.

Section Markup.

Context {B : Browser}.

(** The link, the thumbnail address and the title of a video's markup. *)
Record card : Type := { href : string; src : string; title : string }.

Inductive element : Type :=
| ChannelInfo (heading : string)
| Featured (video : card)
| Grid (videos : list card)
| ViewMore (link : string)
| ErrorBox (message link : string).

Record document : Type := {
  indicator : string;
  children : list element
}.

Definition P (A : Type) : Type := document -> result A * document.

(** [channelUsername || 'channel/' + channelId] behind the site's address. *)
Definition channel_link (o : options) : string :=
  "https://www.youtube.com/" +:+
  (if truthy (JStr (channelUsername o)) then channelUsername o
   else "channel/" +:+ channelId o).

(** [video.url || `https://www.youtube.com/watch?v=${video.id}`] *)
Definition videoUrl (video : jsval) : result jsval :=
  and_then (get_prop video "url") (fun url =>
    if truthy url then Ok url
    else
      and_then (get_prop video "id") (fun id =>
      and_then (to_string id) (fun text =>
        Ok (JStr ("https://www.youtube.com/watch?v=" +:+ text))))).

(** The markup of one video: the link, [video.thumbnail.url] and
    [video.title], each turned into text. *)
Definition card_of (video : jsval) : result card :=
  and_then (videoUrl video) (fun url =>
  and_then (to_string url) (fun link =>
  and_then (get_prop video "thumbnail") (fun thumbnail =>
  and_then (get_prop thumbnail "url") (fun address =>
  and_then (to_string address) (fun source =>
  and_then (get_prop video "title") (fun name =>
  and_then (to_string name) (fun text =>
    Ok {| href := link; src := source; title := text |}))))))).

Fixpoint cards_of (videos : list jsval) : result (list card) :=
  match videos with
  | [] => Ok []
  | video :: rest =>
      and_then (card_of video) (fun c =>
      and_then (cards_of rest) (fun cs => Ok (c :: cs)))
  end.

(** [videos[0]?.channelTitle || 'آخر الفيديوهات من يوتيوب'], as text. *)
Definition heading_of (videos : jsval) : result string :=
  and_then (get_first videos) (fun first =>
  and_then (match first with
            | JUndefined | JNull => Ok JUndefined
            | _ => get_prop first "channelTitle"
            end) (fun channelTitle =>
    to_string (js_or channelTitle (JStr "آخر الفيديوهات من يوتيوب")))).

(** [this.options.featuredVideo && videos.length > 0]: the card of the
    first video, when there is a featured one. *)
Definition featured_of (o : options) (videos : jsval) : result (option card) :=
  if featuredVideo o then
    and_then (get_prop videos "length") (fun len =>
    and_then (gt_num len 0) (fun some =>
      if some then
        and_then (get_first videos) (fun first =>
        and_then (card_of first) (fun c => Ok (Some c)))
      else Ok None))
  else Ok None.

(** [videos.slice(startIndex).forEach(...)]: arrays have both methods; a
    string has [slice] and no [forEach], other values have neither. *)
Definition grid_of (videos : jsval) (startIndex : nat) : result (list card) :=
  match videos with
  | JArr l => cards_of (skipn startIndex l)
  | _ => Throw TypeError
  end.

Definition renderVideos (o : options) (videos : jsval) : P unit :=
  fun _ =>
    let cleared := {| indicator := "none"; children := [] |} in
    match heading_of videos with
    | Throw e => (Throw e, cleared)
    | Ok heading =>
        let headed :=
          {| indicator := "none"; children := [ChannelInfo heading] |} in
        match featured_of o videos with
        | Throw e => (Throw e, headed)
        | Ok first =>
            let startIndex :=
              match first with Some _ => 1%nat | None => 0%nat end in
            let featured :=
              {| indicator := "none";
                 children :=
                   ChannelInfo heading ::
                   match first with Some c => [Featured c] | None => [] end |} in
            match grid_of videos startIndex with
            | Throw e => (Throw e, featured)
            | Ok cards =>
                (Ok tt,
                 {| indicator := "none";
                    children :=
                      children featured ++
                      [Grid cards; ViewMore (channel_link o)] |})
            end
        end
    end.

Definition showLoading : P unit :=
  fun _ => (Ok tt, {| indicator := "flex"; children := [] |}).

Definition showError (o : options) (message : string) : P unit :=
  fun _ =>
    (Ok tt,
     {| indicator := "none";
        children := [ErrorBox message (channel_link o)] |}).

End Markup.

End Page.

(** ** Vocabulary of the statements *)

Section Vocabulary.

Context {B : Browser}.

(** The storage holds, under [key], the serialization of an entry with these
    records and this capture time. *)
Definition cached (st : gmap string string) (key : string)
    (videos : jsval) (capturedAt : Z) : Prop :=
  exists text parsed,
    st !! key = Some text /\
    text <> EmptyString /\
    JSON_parse text = Some parsed /\
    get_prop parsed "videos" = Ok videos /\
    get_prop parsed "timestamp" = Ok (JNum capturedAt).

(** The three guards at the head of [init]. *)
Definition valid_configuration (this : YouTubeChannelVideos) : bool :=
  container this
  && truthy (JStr (apiKey (opts this)))
  && (truthy (JStr (channelId (opts this)))
      || truthy (JStr (channelUsername (opts this)))).

(** The text [saveToCache] stores for [videos] at time [now]. *)
Definition cache_text (videos : jsval) (now : Z) : string :=
  JSON_stringify (JObj [("videos", videos); ("timestamp", JNum now)]).

(** [init] has passed its guards, missed the cache and shown the loading
    state: [w1] is the world in which the fetch is issued. *)
Definition loading (this : YouTubeChannelVideos) (w w1 : world) : Prop :=
  valid_configuration this = true /\
  exists v w0,
    getFromCache this w = (Ok v, w0) /\
    truthy v = false /\
    w1 = emit EShowLoading w0.


(** The widget announces a fallback render on the console right before it
    renders the composed records ([console.log] is called nowhere else): a
    trace with one of the two announcements is the trace of a run that
    rendered fallback records. *)
Definition rendered_fallback (evs : list event) : Prop :=
  In (EConsoleLog "Using fallback videos") evs \/
  In (EConsoleLog "Using fallback videos due to API error") evs.

Definition not_write (e : event) : Prop :=
  match e with
  | ESetItem _ _ => False
  | _ => True
  end.

Definition not_announcement (e : event) : Prop :=
  match e with
  | EConsoleLog _ => False
  | _ => True
  end.

(** Neither a write nor an announcement nor a render. *)
Definition idle_event (e : event) : Prop :=
  match e with
  | ESetItem _ _ | EConsoleLog _ | ERenderVideos _ => False
  | _ => True
  end.

(** A fallback entry as the configuration schema has it: a bare video
    identifier, or a record with an identifier, an optional title and an
    optional URL. [represents v e]: the value [v] of the configured list is
    the entry [e]. *)
Inductive fallback_entry : Type :=
| BareId (id : string)
| Structured (id : string) (title url : option string).

Definition optional_value (value : option string) : jsval :=
  match value with
  | Some s => JStr s
  | None => JUndefined
  end.

Inductive represents : jsval -> fallback_entry -> Prop :=
| represents_bare (id : string) :
    represents (JStr id) (BareId id)
| represents_structured (props : list (string * jsval)) (id : string)
    (title url : option string) :
    lookup_prop "id" props = JStr id ->
    lookup_prop "title" props = optional_value title ->
    lookup_prop "url" props = optional_value url ->
    represents (JObj props) (Structured id title url).

(** The record the composer owes for an entry, in the words of its contract:
    the entry's identifier; the given title, or "Video n" for the n-th entry
    when none is given; the given URL, or the watch URL of the identifier
    when none is given; the thumbnail URL of the identifier. An empty text
    counts as not given. *)
Definition entry_id (e : fallback_entry) : string :=
  match e with
  | BareId id | Structured id _ _ => id
  end.

Definition given (value : option string) (otherwise : string) : string :=
  match value with
  | Some s => if String.eqb s EmptyString then otherwise else s
  | None => otherwise
  end.

Definition entry_title (index : nat) (e : fallback_entry) : string :=
  let synthesized := "Video " +:+ pretty (Z.of_nat index + 1) in
  match e with
  | BareId _ => synthesized
  | Structured _ title _ => given title synthesized
  end.

Definition watch_url (id : string) : string :=
  "https://www.youtube.com/watch?v=" +:+ id.

Definition thumbnail_url (id : string) : string :=
  "https://i.ytimg.com/vi/" +:+ id +:+ "/hqdefault.jpg".

Definition entry_url (e : fallback_entry) : string :=
  match e with
  | BareId id => watch_url id
  | Structured id _ url => given url (watch_url id)
  end.

Definition composed_record (now : Z) (index : nat) (e : fallback_entry) : jsval :=
  JObj [("id", JStr (entry_id e));
        ("title", JStr (entry_title index e));
        ("description", JStr EmptyString);
        ("thumbnail",
         JObj [("url", JStr (thumbnail_url (entry_id e)));
               ("width", JNum 480);
               ("height", JNum 360)]);
        ("publishedAt", JDate (Some now));
        ("channelTitle", JStr "Alaan TV Channel");
        ("url", JStr (entry_url e))].

Fixpoint composed_from (now : Z) (index : nat) (entries : list fallback_entry)
    : list jsval :=
  match entries with
  | [] => []
  | e :: rest => composed_record now index e :: composed_from now (S index) rest
  end.

(** The identifier the composer takes from an entry of the list: the entry
    itself, or the [id] of an entry that is an object. An entry is usable
    when it has an identifier and the identifier has a text: it is not
    [null], and its identifier is neither an object with a [toString]
    property of its own nor an array holding one. *)
Definition identifier_of (video : jsval) : result jsval :=
  if typeof_object video then get_prop video "id" else Ok video.

Definition usable_entry (video : jsval) : Prop :=
  exists id text, identifier_of video = Ok id /\ to_string id = Ok text.

(** A record [renderVideos] can make a card of: it has a thumbnail, with or
    without an address. *)
Definition well_formed (video : jsval) : Prop :=
  exists thumbnail src,
    get_prop video "thumbnail" = Ok thumbnail /\
    get_prop thumbnail "url" = Ok src.

(** The arguments of the calls to [renderVideos] in a trace. *)
Fixpoint render_calls (evs : list event) : list jsval :=
  match evs with
  | [] => []
  | ERenderVideos videos :: rest => videos :: render_calls rest
  | _ :: rest => render_calls rest
  end.

(** A run starts with an empty trace. *)
Definition start (st : gmap string string) (now : Z) : world :=
  {| store := st; clock := now; trace := [] |}.

(** The URLs requested in a trace. *)
Fixpoint fetches (evs : list event) : list string :=
  match evs with
  | [] => []
  | EFetch url :: rest => url :: fetches rest
  | _ :: rest => fetches rest
  end.

Definition console_error_event (e : event) : Prop :=
  match e with
  | EConsoleError _ _ => True
  | _ => False
  end.

Definition network_event (e : event) : Prop :=
  match e with
  | EFetch _ | EConsoleError _ _ => True
  | _ => False
  end.

(** What a cache check can do to the world: it reads the entry, then either
    leaves the storage alone (possibly reporting an error on the console) or
    removes the entry and answers [null]. *)
Inductive cache_checked (key : string) (w : world) : jsval -> world -> Prop :=
| checked_kept (v : jsval) (evs : list event) :
    Forall console_error_event evs ->
    cache_checked key w v
      {| store := store w; clock := clock w;
         trace := trace w ++ EGetItem key :: evs |}
| checked_evicted :
    cache_checked key w JNull
      {| store := delete key (store w); clock := clock w;
         trace := trace w ++ [EGetItem key; ERemoveItem key] |}.

(** A stored text is unreadable when [JSON.parse] rejects it, when the parsed
    value cannot be destructured ([null]), or when the parsed value carries
    neither a [videos] nor a [timestamp] property (a number, a string, an
    array, an object of another shape). *)
Inductive unreadable (text : string) : Prop :=
| unreadable_syntax :
    JSON_parse text = None -> unreadable text
| unreadable_value (parsed : jsval) (e : jserror) :
    JSON_parse text = Some parsed ->
    get_prop parsed "videos" = Throw e ->
    unreadable text
| unreadable_shape (parsed : jsval) :
    JSON_parse text = Some parsed ->
    get_prop parsed "videos" = Ok JUndefined ->
    get_prop parsed "timestamp" = Ok JUndefined ->
    unreadable text.

(** Footprints. [preserves R m]: whatever [m] does, the world it leaves is
    related by [R] to the world it found. *)
Definition preserves (R : world -> world -> Prop) {A} (m : M A) : Prop :=
  forall w r w', m w = (r, w') -> R w w'.

(** The trace grew by events that all satisfy [P]. *)
Definition grew (P : event -> Prop) (w w' : world) : Prop :=
  exists evs, trace w' = trace w ++ evs /\ Forall P evs.

(** The footprint of the fetch phase: the storage is untouched and the only
    calls made are requests and console errors. *)
Definition network_step (w w' : world) : Prop :=
  store w' = store w /\ grew network_event w w'.

Definition no_write (w w' : world) : Prop :=
  store w' = store w /\ grew not_write w w'.

(** [clocked m]: [m] leaves the world as it found it, and its answer depends
    on the time alone. [steady m]: [m] leaves storage and clock alone and
    adds to the trace, and both its answer and what it adds depend on the
    time alone. *)
Definition clocked {A} (m : M A) : Prop :=
  forall w, m w = (fst (m (start ∅ (clock w))), w).


(** [returns P m]: whatever [m] answers satisfies [P]. *)
Definition returns {A} (P : A -> Prop) (m : M A) : Prop :=
  forall w a w', m w = (Ok a, w') -> P a.

(** A fallback-only render: the run announced and rendered fallback records,
    and that render is the only one of the run. *)
Definition fallback_only (evs : list event) : Prop :=
  rendered_fallback evs /\ length (render_calls evs) = 1%nat.

(** The four endpoints the widget requests. *)
Definition username_lookup_url (this : YouTubeChannelVideos) : string :=
  "https://www.googleapis.com/youtube/v3/channels?part=id&forUsername="
  +:+ channelUsername (opts this) +:+ "&key=" +:+ apiKey (opts this).

Definition handle_search_url (this : YouTubeChannelVideos) : string :=
  "https://www.googleapis.com/youtube/v3/search?part=snippet&q="
  +:+ remove_first "@" (channelUsername (opts this))
  +:+ "&type=channel&maxResults=1&key=" +:+ apiKey (opts this).

Definition channel_details_url (this : YouTubeChannelVideos) (id : string)
    : string :=
  "https://www.googleapis.com/youtube/v3/channels?part=contentDetails&id="
  +:+ id +:+ "&key=" +:+ apiKey (opts this).

Definition playlist_items_url (this : YouTubeChannelVideos)
    (playlistId : string) : string :=
  "https://www.googleapis.com/youtube/v3/playlistItems?part=snippet&maxResults="
  +:+ pretty (maxResults (opts this)) +:+ "&playlistId="
  +:+ playlistId +:+ "&key=" +:+ apiKey (opts this).

(** The world after a request of [url] issued in [w]. *)
Definition requested (url : string) (w : world) : world :=
  {| store := store w;
     clock := clock w + fetch_latency url;
     trace := trace w ++ [EFetch url] |}.

(** [requests_at_most n m]: a run of [m] leaves the storage alone and only
    issues requests and console errors, at most [n] requests. *)
Definition requests_at_most (n : nat) {A} (m : M A) : Prop :=
  forall w r w',
    m w = (r, w') ->
    store w' = store w /\
    exists evs,
      trace w' = trace w ++ evs /\
      Forall network_event evs /\
      (length (fetches evs) <= n)%nat.

(** An answer of the API without items: [items] is missing, falsy or of
    length 0. *)
Definition no_items (data : jsval) : Prop :=
  exists items,
    get_prop data "items" = Ok items /\
    (truthy items = false \/ get_prop items "length" = Ok (JNum 0)).

(** Requests and the console reports of the two resolution steps: what the
    body of [fetchVideos] can add to the trace. *)
Definition resolution_event (e : event) : Prop :=
  match e with
  | EFetch _ => True
  | EConsoleError msg _ =>
      msg = "Error getting channel ID from username:" \/
      msg = "Error getting channel ID from handle:"
  | _ => False
  end.

(** [fetchVideos] with its first step, the resolution of the channel, taken
    as a parameter: the rest of the method's body and its handler. *)
Definition fetchVideos_with (this : YouTubeChannelVideos)
    (resolution : M jsval) : M jsval :=
  try_catch
    (let! channel := resolution in
     if negb (truthy channel) then throw (Error "Could not determine channel ID")
     else
       let! id := lift (to_string channel) in
       let! channelResponse := fetch (channel_details_url this id) in
       if negb (ok channelResponse) then throw (Error "Failed to fetch channel data")
       else
         let! channelData := response_json channelResponse in
         let! none := items_absent channelData in
         if none then throw (Error "Channel not found")
         else
           let! items := lift (get_prop channelData "items") in
           let! item := lift (get_first items) in
           let! contentDetails := lift (get_prop item "contentDetails") in
           let! relatedPlaylists := lift (get_prop contentDetails "relatedPlaylists") in
           let! uploadsPlaylistId := lift (get_prop relatedPlaylists "uploads") in
           let! playlistId := lift (to_string uploadsPlaylistId) in
           let! videosResponse :=
             fetch (playlist_items_url this playlistId) in
           if negb (ok videosResponse) then throw (Error "Failed to fetch videos")
           else
             let! videosData := response_json videosResponse in
             let! empty := items_absent videosData in
             if empty then ret (JArr [])
             else
               let! videoItems := lift (get_prop videosData "items") in
               array_map videoFromItem videoItems)
    (fun error =>
       do! console_error "Error in fetchVideos:" (Some error) in
       throw error).

(** How [fetchVideos] ends when it rejects with [e] in the world [w]: the
    error is reported on the console and thrown again. *)
Definition rejected (e : jserror) (w : world) : result jsval * world :=
  (Throw e, emit (EConsoleError "Error in fetchVideos:" (Some e)) w).

(** The request of [url] is answered, with status ok and the JSON [data]. *)
Definition answers (url : string) (data : jsval) : Prop :=
  exists response,
    fetch_response url = Some response /\
    ok response = true /\
    body response = Some data.

(** The ways a request can fail to bring items, each with the error
    [fetchVideos] raises for it when the request is the one for the
    channel. *)
Inductive channel_failure (url : string) : jserror -> Prop :=
| channel_unreachable :
    fetch_response url = None ->
    channel_failure url NetworkError
| channel_refused (response : response) :
    fetch_response url = Some response ->
    ok response = false ->
    channel_failure url (Error "Failed to fetch channel data")
| channel_garbled (response : response) :
    fetch_response url = Some response ->
    ok response = true ->
    body response = None ->
    channel_failure url SyntaxError
| channel_unknown (data : jsval) :
    answers url data ->
    no_items data ->
    channel_failure url (Error "Channel not found").

(** [data] has items: [items] is truthy and its length is not 0. *)
Definition has_items (data items : jsval) : Prop :=
  get_prop data "items" = Ok items /\
  truthy items = true /\
  exists len, get_prop items "length" = Ok len /\ strict_eq_zero len = false.

(** The answer to the channel request names the uploads playlist of its
    first item, and [playlistId] is its text. *)
Definition uploads_playlist (data : jsval) (playlistId : string) : Prop :=
  exists items item contentDetails relatedPlaylists playlist,
    has_items data items /\
    get_first items = Ok item /\
    get_prop item "contentDetails" = Ok contentDetails /\
    get_prop contentDetails "relatedPlaylists" = Ok relatedPlaylists /\
    get_prop relatedPlaylists "uploads" = Ok playlist /\
    to_string playlist = Ok playlistId.




(** The first step of [fetchVideos] in [w] gives a truthy channel, whose
    text is [id], and leaves the world [w1]: the channel is the configured
    identifier, or else what the resolution of the configured handle
    answers. *)
Definition resolves (this : YouTubeChannelVideos) (w : world)
    (id : string) (w1 : world) : Prop :=
  (channelId (opts this) <> EmptyString /\
   id = channelId (opts this) /\
   w1 = w) \/
  (channelId (opts this) = EmptyString /\
   channelUsername (opts this) <> EmptyString /\
   exists channel,
     getChannelIdFromUsername this w = (Ok channel, w1) /\
     truthy channel = true /\
     to_string channel = Ok id).

(** [JSON.parse] reads [text] back as an entry with these records and this
    capture time. *)
Definition decodes (text : string) (videos : jsval) (capturedAt : Z) : Prop :=
  text <> EmptyString /\
  exists parsed,
    JSON_parse text = Some parsed /\
    get_prop parsed "videos" = Ok videos /\
    get_prop parsed "timestamp" = Ok (JNum capturedAt).

(** The world at a later moment: same storage, same trace. *)
Definition at_time (now : Z) (w : world) : world :=
  {| store := store w; clock := now; trace := trace w |}.

(** The channel a configuration names: its identifier, or without one its
    handle. *)
Definition channel_name (o : options) : string :=
  if String.eqb (channelId o) EmptyString then channelUsername o
  else channelId o.

(** Every key of the storage but [key] holds what it held. *)
Definition elsewhere_untouched (key : string) (w w' : world) : Prop :=
  forall k, k <> key -> store w' !! k = store w !! k.

(** The calls that put something before the visitor's eyes in place of the
    loading state. *)
Definition view_event (e : event) : Prop :=
  match e with
  | ERenderVideos _ | EShowError _ => True
  | _ => False
  end.

(** What [init] does before its promise chain settles: the cache check, the
    loading state, requests and console errors. *)
Definition preparation_event (e : event) : Prop :=
  match e with
  | EGetItem _ | ERemoveItem _ | EShowLoading | EFetch _
  | EConsoleError _ _ => True
  | _ => False
  end.

Definition not_request (e : event) : Prop :=
  match e with
  | EFetch _ => False
  | _ => True
  end.

(** What a call recorded in the trace does to the page, and the page after
    the calls of a trace. *)
Definition page_after (this : YouTubeChannelVideos) (e : event)
    (d : Page.document) : Page.document :=
  match e with
  | EShowLoading => snd (Page.showLoading d)
  | ERenderVideos videos => snd (Page.renderVideos (opts this) videos d)
  | EShowError message => snd (Page.showError (opts this) message d)
  | _ => d
  end.

Definition replay (this : YouTubeChannelVideos) (evs : list event)
    (d : Page.document) : Page.document :=
  fold_left (fun d e => page_after this e d) evs d.

(** The videos a page shows: the featured one, then those of the grid. *)
Definition shown (d : Page.document) : list Page.card :=
  flat_map
    (fun el =>
       match el with
       | Page.Featured c => [c]
       | Page.Grid cs => cs
       | _ => []
       end)
    (Page.children d).

End Vocabulary.

(** ** A concrete browser

    The environment used to run the widget on examples: a JSON codec that is
    the real one on the values of the examples (no string in them needs an
    escape, and the texts read back are those of the examples), one channel
    on the network, and a storage that is either roomy or full. *)

Module Demo.

Definition quote : string := String "034"%char EmptyString.

(** [n] in decimal, with zeros in front up to [width] digits. *)
Definition padded (width : nat) (n : Z) : string :=
  let digits := pretty n in
  String.concat "" (repeat "0" (width - String.length digits)) +:+ digits.

(** [Date.prototype.toISOString] on a time value: the proleptic Gregorian
    date in UTC, the year on four digits, or on six with its sign outside
    0..9999. *)
Definition toISOString (t : Z) : string :=
  let ms := t mod 86400000 in
  let z := t / 86400000 + 719468 in
  let era := z / 146097 in
  let doe := z - era * 146097 in
  let yoe := (doe - doe / 1460 + doe / 36524 - doe / 146096) / 365 in
  let doy := doe - (365 * yoe + yoe / 4 - yoe / 100) in
  let mp := (5 * doy + 2) / 153 in
  let day := doy - (153 * mp + 2) / 5 + 1 in
  let month := if mp <? 10 then mp + 3 else mp - 9 in
  let year := yoe + era * 400 + (if month <=? 2 then 1 else 0) in
  (if (0 <=? year) && (year <=? 9999) then padded 4 year
   else (if year <? 0 then "-" else "+") +:+ padded 6 (Z.abs year))
  +:+ "-" +:+ padded 2 month +:+ "-" +:+ padded 2 day
  +:+ "T" +:+ padded 2 (ms / 3600000)
  +:+ ":" +:+ padded 2 (ms / 60000 mod 60)
  +:+ ":" +:+ padded 2 (ms / 1000 mod 60)
  +:+ "." +:+ padded 3 (ms mod 1000) +:+ "Z".

(** [JSON.stringify]: [undefined] properties are left out, a date is its
    ISO text and an invalid date [null]. *)
Fixpoint stringify (v : jsval) : string :=
  match v with
  | JUndefined | JNull | JNaN => "null"
  | JBool true => "true"
  | JBool false => "false"
  | JNum n => pretty n
  | JStr s => quote +:+ s +:+ quote
  | JArr items =>
      "[" +:+
      String.concat ","
        ((fix elements (l : list jsval) : list string :=
            match l with
            | [] => []
            | x :: rest => stringify x :: elements rest
            end) items)
      +:+ "]"
  | JObj props =>
      "{" +:+
      String.concat ","
        ((fix members (l : list (string * jsval)) : list string :=
            match l with
            | [] => []
            | (_, JUndefined) :: rest => members rest
            | (k, x) :: rest =>
                (quote +:+ k +:+ quote +:+ ":" +:+ stringify x) :: members rest
            end) props)
      +:+ "}"
  | JDate (Some t) => quote +:+ toISOString t +:+ quote
  | JDate None => "null"
  end.

Definition first_video : jsval :=
  JObj [("id", JStr "a");
        ("title", JStr "First");
        ("thumbnail", JObj [("url", JStr "a.jpg")])].

(** A well-formed entry captured at time 1000. *)
Definition entry : jsval :=
  JObj [("videos", JArr [first_video]); ("timestamp", JNum 1000)].

(** An entry that lost its capture time. *)
Definition undated_entry : jsval := JObj [("videos", JArr [first_video])].

(** An upload without a thumbnail as [fetchVideos] normalizes it, the entry
    [saveToCache] makes of it at time 5100, and what is read back from the
    storage: [JSON.stringify] has left out the [undefined] thumbnail and
    written the invalid date as [null]. *)
Definition bare_video : jsval :=
  JObj [("id", JStr "v3");
        ("title", JStr "Three");
        ("description", JStr "about");
        ("thumbnail", JUndefined);
        ("publishedAt", JDate None);
        ("channelTitle", JStr "Channel")].

Definition bare_entry : jsval :=
  JObj [("videos", JArr [bare_video]); ("timestamp", JNum 5100)].

Definition cached_bare_video : jsval :=
  JObj [("id", JStr "v3");
        ("title", JStr "Three");
        ("description", JStr "about");
        ("publishedAt", JNull);
        ("channelTitle", JStr "Channel")].

Definition cached_bare_entry : jsval :=
  JObj [("videos", JArr [cached_bare_video]); ("timestamp", JNum 5100)].

(** The two uploads as [fetchVideos] normalizes them. *)
Definition video (videoId title : string) : jsval :=
  JObj [("id", JStr videoId);
        ("title", JStr title);
        ("description", JStr "about");
        ("thumbnail", JObj [("url", JStr "h.jpg")]);
        ("publishedAt", JDate None);
        ("channelTitle", JStr "Channel")].

Definition uploaded : list jsval := [video "v1" "One"; video "v2" "Two"].

(** The entry [saveToCache] makes of the two uploads at time 5100, and what
    is read back from the storage: the invalid dates have become [null]. *)
Definition uploaded_entry : jsval :=
  JObj [("videos", JArr uploaded); ("timestamp", JNum 5100)].

Definition cached_video (videoId title : string) : jsval :=
  JObj [("id", JStr videoId);
        ("title", JStr title);
        ("description", JStr "about");
        ("thumbnail", JObj [("url", JStr "h.jpg")]);
        ("publishedAt", JNull);
        ("channelTitle", JStr "Channel")].

Definition cached_uploaded : list jsval :=
  [cached_video "v1" "One"; cached_video "v2" "Two"].

Definition cached_uploaded_entry : jsval :=
  JObj [("videos", JArr cached_uploaded); ("timestamp", JNum 5100)].

(** [JSON.parse] on the texts of the examples; every other text, such as
    [garbage], is rejected. *)
Definition garbage : string := "not json".

Definition parse (text : string) : option jsval :=
  if String.eqb text (stringify entry) then Some entry
  else if String.eqb text (stringify undated_entry) then Some undated_entry
  else if String.eqb text (stringify bare_entry) then Some cached_bare_entry
  else if String.eqb text (stringify uploaded_entry)
       then Some cached_uploaded_entry
  else if String.eqb text "null" then Some JNull
  else if String.eqb text "[]" then Some (JArr [])
  else None.

(** The channel [UC1] has two uploads. *)
Definition item (videoId title : string) : jsval :=
  JObj [("snippet",
         JObj [("resourceId", JObj [("videoId", JStr videoId)]);
               ("title", JStr title);
               ("description", JStr "about");
               ("thumbnails",
                JObj [("medium", JObj [("url", JStr "m.jpg")]);
                      ("high", JObj [("url", JStr "h.jpg")])]);
               ("channelTitle", JStr "Channel")])].

Definition channel_url : string :=
  "https://www.googleapis.com/youtube/v3/channels?part=contentDetails&id=UC1&key=KEY".

Definition uploads_url : string :=
  "https://www.googleapis.com/youtube/v3/playlistItems?part=snippet&maxResults=10&playlistId=UU1&key=KEY".

Definition channel_body : jsval :=
  JObj [("items",
         JArr [JObj [("contentDetails",
                      JObj [("relatedPlaylists",
                             JObj [("uploads", JStr "UU1")])])]])].

Definition online (url : string) : option response :=
  if String.eqb url channel_url then
    Some {| ok := true; body := Some channel_body |}
  else if String.eqb url uploads_url then
    Some {| ok := true;
            body := Some (JObj [("items", JArr [item "v1" "One";
                                                 item "v2" "Two"])]) |}
  else Some {| ok := false; body := None |}.

(** The same channel with nothing uploaded. *)
Definition online_empty (url : string) : option response :=
  if String.eqb url channel_url then
    Some {| ok := true; body := Some channel_body |}
  else if String.eqb url uploads_url then
    Some {| ok := true; body := Some (JObj [("items", JArr [])]) |}
  else Some {| ok := false; body := None |}.

(** The same channel with one upload that has no thumbnail. *)
Definition bare_item : jsval :=
  JObj [("snippet",
         JObj [("resourceId", JObj [("videoId", JStr "v3")]);
               ("title", JStr "Three");
               ("description", JStr "about");
               ("thumbnails", JObj []);
               ("channelTitle", JStr "Channel")])].

Definition online_bare (url : string) : option response :=
  if String.eqb url channel_url then
    Some {| ok := true; body := Some channel_body |}
  else if String.eqb url uploads_url then
    Some {| ok := true; body := Some (JObj [("items", JArr [bare_item])]) |}
  else Some {| ok := false; body := None |}.

Definition offline (url : string) : option response := None.

Definition browser (network : string -> option response) (full : bool) : Browser :=
  {| JSON_parse := parse;
     JSON_stringify := stringify;
     StringToNumber := fun _ => None;
     Date_parse := fun v => match v with JNum n => Some n | _ => None end;
     Date_toString := fun _ => "Invalid Date";
     querySelector := fun selector => String.eqb selector "#youtube-api-container";
     fetch_response := network;
     fetch_latency := fun _ => 50;
     quota_exceeded := fun _ _ _ => full |}.

(** The constructor's defaults, with a key and a channel. *)
Definition settings (fallback : jsval) : options :=
  {| apiKey := "KEY";
     channelId := "UC1";
     channelUsername := EmptyString;
     maxResults := 10;
     containerSelector := "#youtube-api-container";
     cacheExpiration := 3600;
     featuredVideo := true;
     fallbackVideos := fallback |}.

Definition roomy : Browser := browser online false.
Definition silent : Browser := browser online_empty false.
Definition bare : Browser := browser online_bare false.
Definition unplugged : Browser := browser offline false.

(** The document is the same in the four browsers, and so is the widget. *)
Definition widget (fallback : jsval) : YouTubeChannelVideos :=
  @constructor unplugged (settings fallback).

(** The widget configured with both a channel identifier and a handle. *)
Definition widget_with_both : YouTubeChannelVideos :=
  @constructor unplugged
    {| apiKey := "KEY";
       channelId := "UC1";
       channelUsername := "@tarfiehplus";
       maxResults := 10;
       containerSelector := "#youtube-api-container";
       cacheExpiration := 3600;
       featuredVideo := true;
       fallbackVideos := JArr [] |}.

(** The widget without an API key. *)
Definition widget_without_key : YouTubeChannelVideos :=
  @constructor unplugged
    {| apiKey := EmptyString;
       channelId := "UC1";
       channelUsername := EmptyString;
       maxResults := 10;
       containerSelector := "#youtube-api-container";
       cacheExpiration := 3600;
       featuredVideo := true;
       fallbackVideos := JArr [] |}.

Definition key : string := "youtube-videos-UC1".

(** A storage holding [entry], whose hour of validity ends at 3601000. *)
Definition stored : gmap string string := <[key := stringify entry]> ∅.

(** A storage holding a text that is not JSON, and one holding the entry
    without a capture time. *)
Definition littered : gmap string string := <[key := garbage]> ∅.

Definition undated : gmap string string :=
  <[key := stringify undated_entry]> ∅.

(** The world in which a run started at 5000 on an empty storage issues its
    fetch, and the worlds in which the fetch settles: after two answered
    requests, or after one request that met no network. *)
Definition asked : world :=
  {| store := ∅; clock := 5000; trace := [EGetItem key; EShowLoading] |}.

Definition answered : world :=
  {| store := ∅; clock := 5100;
     trace := [EGetItem key; EShowLoading; EFetch channel_url;
               EFetch uploads_url] |}.

Definition failed : world :=
  {| store := ∅; clock := 5050;
     trace := [EGetItem key; EShowLoading; EFetch channel_url;
               EConsoleError "Error in fetchVideos:" (Some NetworkError)] |}.

(** The fallback list of the examples: a bare identifier, then an entry with
    a title of its own. *)
Definition configured : list fallback_entry :=
  [BareId "abc123"; Structured "xyz" (Some "Custom") None].

Definition fallback_list : jsval :=
  JArr [JStr "abc123"; JObj [("id", JStr "xyz"); ("title", JStr "Custom")]].

(** The run on the storage holding the expired [entry], against the channel
    with no uploads, with the fallback list configured. *)
Definition fallen_back : world :=
  {| store := delete key stored;
     clock := 3601101;
     trace := [EGetItem key; ERemoveItem key; EShowLoading;
               EFetch channel_url; EFetch uploads_url;
               EConsoleLog "Using fallback videos";
               ERenderVideos (JArr (composed_from 3601101 0 configured))] |}.

(** A fallback list of malformed entries: a number and an empty object. *)
Definition malformed : list jsval := [JNum 5; JObj []].

(** A fallback list with an entry whose identifier cannot be turned into
    text. *)
Definition unprintable : list jsval :=
  [JObj [("id", JObj [("toString", JNum 0)])]].

(** The widget configured with a handle only, and a network on which the
    lookup by name finds nothing and the search finds the channel [UC1]. *)
Definition handle_widget : YouTubeChannelVideos :=
  @constructor unplugged
    {| apiKey := "KEY";
       channelId := EmptyString;
       channelUsername := "@tarfiehplus";
       maxResults := 10;
       containerSelector := "#youtube-api-container";
       cacheExpiration := 3600;
       featuredVideo := true;
       fallbackVideos := JArr [] |}.

Definition lookup_url : string :=
  "https://www.googleapis.com/youtube/v3/channels?part=id&forUsername=@tarfiehplus&key=KEY".

Definition search_url : string :=
  "https://www.googleapis.com/youtube/v3/search?part=snippet&q=tarfiehplus&type=channel&maxResults=1&key=KEY".

Definition online_by_handle (url : string) : option response :=
  if String.eqb url lookup_url then
    Some {| ok := true; body := Some (JObj [("items", JArr [])]) |}
  else if String.eqb url search_url then
    Some {| ok := true;
            body := Some (JObj [("items",
                                 JArr [JObj [("snippet",
                                             JObj [("channelId", JStr "UC1")])]])]) |}
  else online url.

Definition handled : Browser := browser online_by_handle false.

(** A storage in which another part of the page keeps a setting. *)
Definition furnished : gmap string string := <["theme" := "dark"]> ∅.

(** The page while the loading indicator shows, the cards of the two uploads
    and the page that shows them with the first one featured. *)
Definition loading_page : Page.document :=
  {| Page.indicator := "flex"; Page.children := [] |}.

Definition uploaded_cards : list Page.card :=
  [{| Page.href := "https://www.youtube.com/watch?v=v1";
      Page.src := "h.jpg";
      Page.title := "One" |};
   {| Page.href := "https://www.youtube.com/watch?v=v2";
      Page.src := "h.jpg";
      Page.title := "Two" |}].

Definition uploaded_page : Page.document :=
  {| Page.indicator := "none";
     Page.children :=
       [Page.ChannelInfo "Channel";
        Page.Featured
          {| Page.href := "https://www.youtube.com/watch?v=v1";
             Page.src := "h.jpg";
             Page.title := "One" |};
        Page.Grid
          [{| Page.href := "https://www.youtube.com/watch?v=v2";
              Page.src := "h.jpg";
              Page.title := "Two" |}];
        Page.ViewMore "https://www.youtube.com/@tarfiehplus"] |}.

End Demo.

(** ** Properties *)

(** Unfolds the monad and the collaborators, leaving the conversions and the
    browser's functions folded. *)
Ltac plumbing :=
  cbv [try_catch bind lift ret throw log then_catch Date_now
       localStorage_getItem localStorage_setItem localStorage_removeItem
       console_error console_log showLoading showError
       JSON_parse_or_throw response_json emit];
  cbn [store clock trace negb andb orb].

Ltac same_world :=
  plumbing; rewrite <- ?app_assoc; reflexivity.

Section Properties.

Context {B : Browser}.

(** ** getFromCache *)

Lemma truthy_string (s : string) : truthy (JStr s) = true <-> s <> EmptyString.
Proof.
  simpl. destruct (String.eqb_spec s EmptyString); simpl; split; congruence.
Qed.

Lemma expiry_of_number (now capturedAt ttl : Z) :
  js_add (JNum capturedAt) (JNum ttl) = Ok (JNum (capturedAt + ttl)) /\
  num_gt now (JNum (capturedAt + ttl)) = Ok (capturedAt + ttl <? now)%Z.
Proof. split; reflexivity. Qed.

Lemma getFromCache_entry (this : YouTubeChannelVideos) (w : world)
    (videos : jsval) (capturedAt : Z) :
  cached (store w) (cacheKey this) videos capturedAt ->
  getFromCache this w =
    if (capturedAt + cacheExpiration (opts this) * 1000 <? clock w)%Z then
      (Ok JNull,
       {| store := delete (cacheKey this) (store w);
          clock := clock w;
          trace := trace w ++ [EGetItem (cacheKey this);
                               ERemoveItem (cacheKey this)] |})
    else
      (Ok videos,
       {| store := store w;
          clock := clock w;
          trace := trace w ++ [EGetItem (cacheKey this)] |}).
Proof.
  intros (text & parsed & Hst & Hne & Hparse & Hv & Ht).
  apply truthy_string in Hne.
  unfold getFromCache. plumbing.
  rewrite Hst, Hne. plumbing. rewrite Hparse. plumbing.
  rewrite Hv, Ht. plumbing.
  destruct (expiry_of_number (clock w) capturedAt
              (cacheExpiration (opts this) * 1000)) as [-> ->].
  destruct (_ <? _)%Z; same_world.
Qed.

Lemma getFromCache_checked (this : YouTubeChannelVideos) (w : world) :
  exists v w',
    getFromCache this w = (Ok v, w') /\ cache_checked (cacheKey this) w v w'.
Proof.
  unfold getFromCache. plumbing.
  destruct (store w !! cacheKey this) as [text|]; plumbing;
    [|eexists _, _; split; [reflexivity | apply checked_kept; constructor]].
  destruct (truthy (JStr text)); plumbing;
    [|eexists _, _; split; [reflexivity | apply checked_kept; constructor]].
  destruct (JSON_parse text) as [parsed|]; plumbing;
    [|eexists _, _; split;
      [reflexivity
      |rewrite <- app_assoc; apply checked_kept; repeat constructor]].
  destruct (get_prop parsed "videos") as [videos|e] eqn:Hv; plumbing;
    [|eexists _, _; split;
      [reflexivity
      |rewrite <- app_assoc; apply checked_kept; repeat constructor]].
  destruct (get_prop parsed "timestamp") as [timestamp|e] eqn:Ht; plumbing;
    [|eexists _, _; split;
      [reflexivity
      |rewrite <- app_assoc; apply checked_kept; repeat constructor]].
  destruct (js_add timestamp _) as [expirationTime|e]; plumbing;
    [|eexists _, _; split;
      [reflexivity
      |rewrite <- app_assoc; apply checked_kept; repeat constructor]].
  destruct (num_gt _ _) as [[|]|e]; plumbing; eexists _, _; split;
    try reflexivity.
  - rewrite <- app_assoc. apply checked_evicted.
  - apply checked_kept. constructor.
  - rewrite <- app_assoc. apply checked_kept. repeat constructor.
Qed.

(** ** Footprints

    For a preorder [R], [preserves R] goes through the monad's combinators. *)

Section Footprint.

Variable R : world -> world -> Prop.
Hypothesis R_refl : forall w, R w w.
Hypothesis R_trans : forall w1 w2 w3, R w1 w2 -> R w2 w3 -> R w1 w3.

Lemma preserves_ret {A} (a : A) : preserves R (ret a).
Proof. intros w r w' [= <- <-]. apply R_refl. Qed.

Lemma preserves_throw {A} (e : jserror) : preserves R (@throw A e).
Proof. intros w r w' [= <- <-]. apply R_refl. Qed.

Lemma preserves_lift {A} (x : result A) : preserves R (lift x).
Proof. intros w r w' [= <- <-]. apply R_refl. Qed.

Lemma preserves_bind {A C} (m : M A) (k : A -> M C) :
  preserves R m -> (forall a, preserves R (k a)) -> preserves R (bind m k).
Proof.
  intros Hm Hk w r w'. unfold bind.
  destruct (m w) as [[a|e] w1] eqn:E.
  - intros H. eapply R_trans; [eapply Hm, E | eapply Hk, H].
  - intros [= <- <-]. eapply Hm, E.
Qed.

Lemma preserves_try_catch {A} (m : M A) (h : jserror -> M A) :
  preserves R m -> (forall e, preserves R (h e)) -> preserves R (try_catch m h).
Proof.
  intros Hm Hh w r w'. unfold try_catch.
  destruct (m w) as [[a|e] w1] eqn:E.
  - intros [= <- <-]. eapply Hm, E.
  - intros H. eapply R_trans; [eapply Hm, E | eapply Hh, H].
Qed.

Lemma preserves_mapM {A C} (f : A -> M C) (l : list A) :
  (forall x, preserves R (f x)) -> preserves R (mapM f l).
Proof.
  intros Hf. induction l as [|x l IH]; simpl.
  - apply preserves_ret.
  - apply preserves_bind; [apply Hf|]. intros y.
    apply preserves_bind; [apply IH|]. intros ys. apply preserves_ret.
Qed.

Lemma preserves_mapM_from {A C} (f : A -> Z -> M C) (l : list A) (i : Z) :
  (forall x j, preserves R (f x j)) -> preserves R (mapM_from i f l).
Proof.
  intros Hf. revert i. induction l as [|x l IH]; intros i; simpl.
  - apply preserves_ret.
  - apply preserves_bind; [apply Hf|]. intros y.
    apply preserves_bind; [apply IH|]. intros ys. apply preserves_ret.
Qed.

Lemma preserves_Date_now : preserves R Date_now.
Proof. intros w r w' [= <- <-]. apply R_refl. Qed.

End Footprint.

(** Takes a computation apart along the combinators; [leaf] settles the
    calls to collaborators. *)
Ltac footprint_by refl trans leaf :=
  repeat first
    [ apply preserves_ret; apply refl
    | apply preserves_throw; apply refl
    | apply preserves_lift; apply refl
    | apply preserves_Date_now; apply refl
    | apply preserves_bind; [apply trans| |intros ?]
    | apply preserves_try_catch; [apply trans| |intros ?]
    | apply preserves_mapM; [apply refl|apply trans|intros ?]
    | apply preserves_mapM_from; [apply refl|apply trans|intros ? ?]
    | leaf
    | match goal with
      | |- preserves _ (if ?c then _ else _) => destruct c
      | |- preserves _ (match ?x with _ => _ end) => destruct x
      end ].

Lemma grew_refl (P : event -> Prop) (w : world) : grew P w w.
Proof. exists []. rewrite app_nil_r. auto. Qed.

Lemma grew_trans (P : event -> Prop) (w1 w2 w3 : world) :
  grew P w1 w2 -> grew P w2 w3 -> grew P w1 w3.
Proof.
  intros (evs1 & Ht1 & Hf1) (evs2 & Ht2 & Hf2).
  exists (evs1 ++ evs2). rewrite Ht2, Ht1, app_assoc. split; [reflexivity|].
  apply Forall_app; auto.
Qed.

Lemma grew_emit (P : event -> Prop) (e : event) (w : world) :
  P e -> grew P w (emit e w).
Proof. intros He. exists [e]. split; [reflexivity | repeat constructor; exact He]. Qed.

Lemma grew_weaken (P Q : event -> Prop) (w w' : world) :
  (forall e, P e -> Q e) -> grew P w w' -> grew Q w w'.
Proof.
  intros HPQ (evs & Ht & Hf). exists evs. split; [exact Ht|].
  eapply Forall_impl; eauto.
Qed.

Lemma network_step_refl (w : world) : network_step w w.
Proof. split; [reflexivity | apply grew_refl]. Qed.

Lemma network_step_trans (w1 w2 w3 : world) :
  network_step w1 w2 -> network_step w2 w3 -> network_step w1 w3.
Proof.
  intros [Hs1 Hg1] [Hs2 Hg2]. split; [congruence | eapply grew_trans; eauto].
Qed.

Lemma network_step_fetch (url : string) : preserves network_step (fetch url).
Proof.
  intros w r w'. unfold fetch.
  destruct (fetch_response url); intros [= <- <-];
    (split; [reflexivity|]; exists [EFetch url]; split;
     [reflexivity | repeat constructor]).
Qed.

Lemma network_step_console_error (msg : string) (err : option jserror) :
  preserves network_step (console_error msg err).
Proof.
  intros w r w' [= <- <-]. split; [reflexivity|].
  apply grew_emit. exact I.
Qed.

Ltac footprint :=
  footprint_by network_step_refl network_step_trans
    ltac:(first [apply network_step_fetch | apply network_step_console_error]).

Lemma items_absent_network (data : jsval) :
  preserves network_step (items_absent data).
Proof. unfold items_absent. footprint. Qed.

Lemma response_json_network (r : response) :
  preserves network_step (response_json r).
Proof. unfold response_json. footprint. Qed.

Lemma getChannelIdFromHandle_network (this : YouTubeChannelVideos) :
  preserves network_step (getChannelIdFromHandle this).
Proof.
  unfold getChannelIdFromHandle.
  footprint; auto using items_absent_network, response_json_network.
Qed.

Lemma getChannelIdFromUsername_network (this : YouTubeChannelVideos) :
  preserves network_step (getChannelIdFromUsername this).
Proof.
  unfold getChannelIdFromUsername.
  footprint;
    auto using items_absent_network, response_json_network,
      getChannelIdFromHandle_network.
Qed.

Lemma videoFromItem_network (item : jsval) :
  preserves network_step (videoFromItem item).
Proof. unfold videoFromItem. footprint. Qed.

Lemma fetchVideos_network (this : YouTubeChannelVideos) :
  preserves network_step (fetchVideos this).
Proof.
  unfold fetchVideos, array_map.
  footprint;
    auto using items_absent_network, response_json_network,
      getChannelIdFromUsername_network, videoFromItem_network.
Qed.

(** ** The fallback composer reads the clock and nothing else *)

Lemma clocked_ret {A} (a : A) : clocked (ret a).
Proof. intros w. reflexivity. Qed.

Lemma clocked_throw {A} (e : jserror) : clocked (@throw A e).
Proof. intros w. reflexivity. Qed.

Lemma clocked_lift {A} (x : result A) : clocked (lift x).
Proof. intros w. reflexivity. Qed.

Lemma clocked_Date_now : clocked Date_now.
Proof. intros w. reflexivity. Qed.

Lemma clocked_bind {A C} (m : M A) (k : A -> M C) :
  clocked m -> (forall a, clocked (k a)) -> clocked (bind m k).
Proof.
  intros Hm Hk w. unfold bind. rewrite (Hm w).
  pose proof (Hm (start ∅ (clock w))) as H0. cbn [clock start] in H0.
  destruct (m (start ∅ (clock w))) as [[a|e] w0]; cbn [fst] in *.
  - injection H0 as ->. apply Hk.
  - reflexivity.
Qed.

Lemma clocked_mapM_from {A C} (f : A -> Z -> M C) (l : list A) (i : Z) :
  (forall x j, clocked (f x j)) -> clocked (mapM_from i f l).
Proof.
  intros Hf. revert i. induction l as [|x l IH]; intros i; simpl.
  - apply clocked_ret.
  - apply clocked_bind; [apply Hf|]. intros y.
    apply clocked_bind; [apply IH|]. intros ys. apply clocked_ret.
Qed.

Ltac clock_only :=
  repeat first
    [ apply clocked_ret
    | apply clocked_throw
    | apply clocked_lift
    | apply clocked_Date_now
    | apply clocked_bind; [|intros ?]
    | apply clocked_mapM_from; intros ? ?
    | match goal with
      | |- clocked (if ?c then _ else _) => destruct c
      | |- clocked (match ?x with _ => _ end) => destruct x
      end ].

Lemma fallbackVideo_clocked (video : jsval) (index : Z) :
  clocked (fallbackVideo video index).
Proof. unfold fallbackVideo. clock_only. Qed.

Lemma createFallbackVideos_clocked (this : YouTubeChannelVideos) :
  clocked (createFallbackVideos this).
Proof.
  unfold createFallbackVideos. clock_only.
  all: apply fallbackVideo_clocked.
Qed.

Lemma nonempty_clocked (videos : jsval) : clocked (nonempty videos).
Proof. unfold nonempty. clock_only. Qed.

(** The composer leaves the world as it found it, and two worlds showing the
    same time get the same answer. *)
Lemma createFallbackVideos_world (this : YouTubeChannelVideos) (w : world)
    (r : result jsval) (w' : world) :
  createFallbackVideos this w = (r, w') -> w' = w.
Proof.
  rewrite (createFallbackVideos_clocked this w). intros [= _ <-]. reflexivity.
Qed.


(** The composer answers an array whenever it answers. *)
Lemma createFallbackVideos_array (this : YouTubeChannelVideos) (w : world)
    (v : jsval) (w' : world) :
  createFallbackVideos this w = (Ok v, w') -> exists l, v = JArr l.
Proof.
  unfold createFallbackVideos. plumbing.
  destruct (truthy (fallbackVideos (opts this))); plumbing;
    [|intros [= <- _]; eauto].
  destruct (get_prop (fallbackVideos (opts this)) "length") as [len|e];
    plumbing; [|discriminate].
  destruct (strict_eq_zero len); plumbing; [intros [= <- _]; eauto|].
  destruct (fallbackVideos (opts this)); plumbing; try discriminate.
  match goal with
  | |- context [mapM_from ?i ?f ?l ?w0] =>
      destruct (mapM_from i f l w0) as [[l'|e] w1]; [|discriminate]
  end.
  intros [= <- _]. eauto.
Qed.

(** ** renderVideos *)

Lemma get_prop_total (v : jsval) (name other : string) (x : jsval) :
  get_prop v name = Ok x -> exists y, get_prop v other = Ok y.
Proof. destruct v; cbn; intros H; try discriminate; eauto. Qed.

Lemma videoCard_well_formed (video : jsval) (w : world) :
  well_formed video -> videoCard video w = (Ok tt, w).
Proof.
  intros (thumbnail & src & Ht & Hsrc).
  destruct (get_prop_total _ _ "url" _ Ht) as [url Hurl].
  destruct (get_prop_total _ _ "title" _ Ht) as [title Htitle].
  unfold videoCard. plumbing. rewrite Hurl, Ht, Hsrc, Htitle. reflexivity.
Qed.

Lemma cards_well_formed (l : list jsval) (w : world) :
  Forall well_formed l ->
  exists cards, mapM videoCard l w = (Ok cards, w).
Proof.
  induction 1 as [|video l Hv _ [cards IH]]; cbn [mapM].
  - eexists. reflexivity.
  - eexists. unfold bind at 1. rewrite (videoCard_well_formed _ _ Hv).
    unfold bind at 1. rewrite IH. reflexivity.
Qed.

(** The render of well-formed records completes. *)
Lemma renderVideos_records (l : list jsval) (w : world) :
  Forall well_formed l ->
  renderVideos (JArr l) w = (Ok tt, emit (ERenderVideos (JArr l)) w).
Proof.
  intros Hl. unfold renderVideos. unfold bind at 1, log.
  destruct (cards_well_formed l (emit (ERenderVideos (JArr l)) w) Hl)
    as [cards Hcards].
  unfold bind. rewrite Hcards. reflexivity.
Qed.

(** Completed or not, a render is one call. *)
Lemma renderVideos_call (videos : jsval) (w : world) :
  exists r, renderVideos videos w = (r, emit (ERenderVideos videos) w).
Proof.
  unfold renderVideos. unfold bind at 1, log.
  match goal with
  | |- exists r, ?m ?w1 = _ =>
      assert (preserves eq m) as Hm;
      [|destruct (m w1) as [r w2] eqn:E; rewrite <- (Hm _ _ _ E); eauto]
  end.
  unfold videoCard.
  footprint_by (@eq_refl world) (@eq_trans world) fail.
Qed.

(** ** The stages of [init] *)

Lemma init_aborts (this : YouTubeChannelVideos) (w : world) :
  valid_configuration this = false ->
  exists msg, init this w = (Ok tt, emit (EConsoleError msg None) w).
Proof.
  unfold valid_configuration, init. intros H.
  destruct (container this); cbn [negb andb] in *; [|eauto].
  destruct (truthy (JStr (apiKey (opts this)))); cbn [negb andb] in *; [|eauto].
  destruct (truthy (JStr (channelId (opts this)))); cbn [negb andb orb] in *;
    [discriminate|].
  destruct (truthy (JStr (channelUsername (opts this)))); cbn [negb] in *;
    [discriminate | eauto].
Qed.

Lemma init_checks_cache (this : YouTubeChannelVideos) (w : world) :
  valid_configuration this = true ->
  init this w =
    match getFromCache this w with
    | (Ok cachedVideos, w0) =>
        if truthy cachedVideos then renderVideos cachedVideos w0
        else then_catch (fetchVideos this) (onFulfilled this) (onRejected this)
               (emit EShowLoading w0)
    | (Throw e, w0) => (Throw e, w0)
    end.
Proof.
  unfold valid_configuration, init. intros H.
  destruct (container this); cbn [negb andb] in *; [|discriminate].
  destruct (truthy (JStr (apiKey (opts this)))); cbn [negb andb] in *;
    [|discriminate].
  replace (negb (truthy (JStr (channelId (opts this))))
           && negb (truthy (JStr (channelUsername (opts this))))) with false
    by (destruct (truthy (JStr (channelId (opts this)))),
                 (truthy (JStr (channelUsername (opts this))));
        cbn in *; congruence).
  unfold bind at 1.
  destruct (getFromCache this w) as [[v|e] w0]; [|reflexivity].
  destruct (truthy v); reflexivity.
Qed.

Lemma init_hit (this : YouTubeChannelVideos) (w w0 : world) (v : jsval) :
  valid_configuration this = true ->
  getFromCache this w = (Ok v, w0) ->
  truthy v = true ->
  init this w = renderVideos v w0.
Proof.
  intros Hvalid Hget Hv. rewrite init_checks_cache, Hget, Hv by assumption.
  reflexivity.
Qed.

Lemma init_miss (this : YouTubeChannelVideos) (w w0 : world) (v : jsval) :
  valid_configuration this = true ->
  getFromCache this w = (Ok v, w0) ->
  truthy v = false ->
  init this w =
    then_catch (fetchVideos this) (onFulfilled this) (onRejected this)
      (emit EShowLoading w0).
Proof.
  intros Hvalid Hget Hv. rewrite init_checks_cache, Hget, Hv by assumption.
  reflexivity.
Qed.

(** ** Claims about the cache check *)

(** C1, as amended. For every cache entry whose capture time plus the
    configured time-to-live (seconds, counted in milliseconds like the capture
    time) is strictly less than the current time, [getFromCache] answers
    [null], a miss, and has removed the stored entry before it returns. *)
Theorem getFromCache_evicts_expired (this : YouTubeChannelVideos) (w : world)
    (videos : jsval) (capturedAt : Z) :
  cached (store w) (cacheKey this) videos capturedAt ->
  capturedAt + cacheExpiration (opts this) * 1000 < clock w ->
  getFromCache this w =
    (Ok JNull,
     {| store := delete (cacheKey this) (store w);
        clock := clock w;
        trace := trace w ++ [EGetItem (cacheKey this);
                             ERemoveItem (cacheKey this)] |}).
Proof.
  intros Hentry Hlate. rewrite (getFromCache_entry _ _ _ _ Hentry).
  apply Z.ltb_lt in Hlate. rewrite Hlate. reflexivity.
Qed.

(** On a configuration that passes the guards, a cache entry with capture
    time plus time-to-live greater than the current time makes the whole run
    of [init]: the read of the entry, then the call of [renderVideos] on the
    stored records, as stored and in their stored order. Nothing is
    requested from the network and the storage is left alone. Whether the
    call completes is up to [renderVideos]. *)
Lemma init_fresh_cache_run (this : YouTubeChannelVideos)
    (st : gmap string string) (now : Z) (records : list jsval)
    (capturedAt : Z) :
  valid_configuration this = true ->
  cached st (cacheKey this) (JArr records) capturedAt ->
  now < capturedAt + cacheExpiration (opts this) * 1000 ->
  exists r w',
    init this (start st now) = (r, w') /\
    trace w' = [EGetItem (cacheKey this); ERenderVideos (JArr records)] /\
    fetches (trace w') = [] /\
    store w' = st.
Proof.
  intros Hvalid Hentry Hfresh.
  assert (Hget := getFromCache_entry this (start st now) _ _ Hentry).
  cbn [clock start] in Hget.
  replace (_ <? _)%Z with false in Hget by (symmetry; apply Z.ltb_ge; lia).
  rewrite (init_hit _ _ _ _ Hvalid Hget eq_refl).
  match goal with
  | |- context [renderVideos ?v ?w0] =>
      destruct (renderVideos_call v w0) as [r Hcall]
  end.
  exists r. eexists. split; [exact Hcall|].
  repeat split.
Qed.

(** C10, as amended. For every stored value that [JSON.parse] rejects, or
    that parses to [null] or to a value with neither a [videos] nor a
    [timestamp] property, [getFromCache] does not throw: it answers a falsy
    value (so [init] goes on to fetch), reports at most errors on the
    console, and leaves the stored entry where it is. *)
Theorem getFromCache_survives_unreadable (this : YouTubeChannelVideos)
    (w : world) (text : string) :
  store w !! cacheKey this = Some text ->
  unreadable text ->
  exists v evs,
    getFromCache this w =
      (Ok v, {| store := store w; clock := clock w;
                trace := trace w ++ EGetItem (cacheKey this) :: evs |}) /\
    truthy v = false /\
    Forall console_error_event evs.
Proof.
  intros Hst Hbad. unfold getFromCache. plumbing. rewrite Hst.
  destruct (truthy (JStr text)); plumbing;
    [|exists JNull, []; repeat split; constructor].
  destruct Hbad as [Hparse | parsed e Hparse Hv | parsed Hparse Hv Ht];
    rewrite Hparse; plumbing.
  - exists JNull, [EConsoleError "Error getting from cache:" (Some SyntaxError)].
    rewrite <- app_assoc. repeat split; repeat constructor.
  - rewrite Hv. plumbing.
    exists JNull, [EConsoleError "Error getting from cache:" (Some e)].
    rewrite <- app_assoc. repeat split; repeat constructor.
  - rewrite Hv, Ht. plumbing.
    exists JUndefined, []. repeat split; constructor.
Qed.

(** ** Claims about the guards *)

(** C2, as amended. [init] checks the configuration before it touches the
    cache or the network: when the render target was not found, or the API
    key is empty, or the channel identifier and the channel handle are both
    empty, the run consists of one diagnostic on the console and nothing
    else: no storage access, no render, no request. *)
Theorem init_rejects_invalid_configuration (this : YouTubeChannelVideos)
    (w : world) :
  container this = false \/
  apiKey (opts this) = EmptyString \/
  (channelId (opts this) = EmptyString /\
   channelUsername (opts this) = EmptyString) ->
  exists msg,
    init this w =
      (Ok tt, {| store := store w; clock := clock w;
                 trace := trace w ++ [EConsoleError msg None] |}).
Proof.
  intros H. apply init_aborts. unfold valid_configuration.
  destruct H as [-> | [-> | [-> ->]]].
  - reflexivity.
  - destruct (container this); reflexivity.
  - destruct (container this), (truthy (JStr (apiKey (opts this))));
      reflexivity.
Qed.

(** ** Answers and steadiness *)

Lemma returns_ret {A} (P : A -> Prop) (a : A) : P a -> returns P (ret a).
Proof. intros Ha w a' w' [= <- _]. exact Ha. Qed.

Lemma returns_throw {A} (P : A -> Prop) (e : jserror) : returns P (throw e).
Proof. intros w a w' H. discriminate H. Qed.

Lemma returns_bind {A C} (P : C -> Prop) (m : M A) (k : A -> M C) :
  (forall a, returns P (k a)) -> returns P (bind m k).
Proof.
  intros Hk w c w'. unfold bind.
  destruct (m w) as [[a|e] w1]; [apply Hk | discriminate].
Qed.

Lemma returns_bind_with {A C} (Q : A -> Prop) (P : C -> Prop) (m : M A)
    (k : A -> M C) :
  returns Q m -> (forall a, Q a -> returns P (k a)) -> returns P (bind m k).
Proof.
  intros Hm Hk w c w'. unfold bind.
  destruct (m w) as [[a|e] w1] eqn:E; [|discriminate].
  apply Hk. eapply Hm, E.
Qed.

Lemma returns_try_catch {A} (P : A -> Prop) (m : M A) (h : jserror -> M A) :
  returns P m -> (forall e, returns P (h e)) -> returns P (try_catch m h).
Proof.
  intros Hm Hh w a w'. unfold try_catch.
  destruct (m w) as [[a'|e] w1] eqn:E.
  - intros [= <- <-]. eapply Hm, E.
  - apply Hh.
Qed.

Lemma returns_mapM {A C} (Q : C -> Prop) (f : A -> M C) (l : list A) :
  (forall x, returns Q (f x)) -> returns (Forall Q) (mapM f l).
Proof.
  intros Hf. induction l as [|x l IH]; cbn [mapM].
  - apply returns_ret. constructor.
  - intros w ys w'. unfold bind at 1.
    destruct (f x w) as [[y|e] w1] eqn:Ex; [|discriminate].
    unfold bind at 1.
    destruct (mapM f l w1) as [[ys'|e] w2] eqn:El; [|discriminate].
    intros [= <- _]. constructor; [eapply Hf, Ex | eapply IH, El].
Qed.

Lemma returns_mapM_from {A C} (Q : C -> Prop) (f : A -> Z -> M C)
    (l : list A) (i : Z) :
  (forall x j, returns Q (f x j)) -> returns (Forall Q) (mapM_from i f l).
Proof.
  intros Hf. revert i. induction l as [|x l IH]; intros i; cbn [mapM_from].
  - apply returns_ret. constructor.
  - intros w ys w'. unfold bind at 1.
    destruct (f x i w) as [[y|e] w1] eqn:Ex; [|discriminate].
    unfold bind at 1.
    destruct (mapM_from (i + 1) f l w1) as [[ys'|e] w2] eqn:El; [|discriminate].
    intros [= <- _]. constructor; [eapply Hf, Ex | eapply IH, El].
Qed.

Ltac answers :=
  repeat first
    [ apply returns_throw
    | apply returns_bind; intros ?
    | apply returns_try_catch; [|intros ?]
    | match goal with
      | |- returns _ (if ?c then _ else _) => destruct c
      | |- returns _ (match ?x with _ => _ end) => destruct x
      end ].














Lemma fallbackVideo_returns (video : jsval) (index : Z) :
  returns well_formed (fallbackVideo video index).
Proof.
  unfold fallbackVideo. answers.
  all: apply returns_ret; eexists _, _; split; reflexivity.
Qed.

(** The composer answers an array of records that can be rendered. *)
Lemma createFallbackVideos_returns (this : YouTubeChannelVideos) :
  returns (fun v => exists l, v = JArr l /\ Forall well_formed l)
    (createFallbackVideos this).
Proof.
  unfold createFallbackVideos. apply returns_bind. intros none.
  destruct none.
  - apply returns_ret. exists []. split; [reflexivity | constructor].
  - destruct (fallbackVideos (opts this)); try apply returns_throw.
    eapply returns_bind_with.
    + apply returns_mapM_from. intros x j. apply fallbackVideo_returns.
    + intros records Hrecords. apply returns_ret. eauto.
Qed.

(** So does the fetch, as far as the array goes. *)
Lemma fetchVideos_returns (this : YouTubeChannelVideos) :
  returns (fun v => exists l, v = JArr l) (fetchVideos this).
Proof.
  unfold fetchVideos, array_map. answers.
  all: apply returns_ret; eauto.
Qed.




(** ** The promise chain *)

Lemma init_loading (this : YouTubeChannelVideos) (w w1 : world) :
  loading this w w1 ->
  init this w =
    then_catch (fetchVideos this) (onFulfilled this) (onRejected this) w1.
Proof.
  intros (Hvalid & v & w0 & Hget & Hv & ->). eapply init_miss; eauto.
Qed.

Lemma saveToCache_run (this : YouTubeChannelVideos) (videos : jsval)
    (w : world) :
  saveToCache this videos w =
    let text := cache_text videos (clock w) in
    if quota_exceeded (store w) (cacheKey this) text then
      (Ok tt,
       {| store := store w; clock := clock w;
          trace := trace w ++ [ESetItem (cacheKey this) text;
                               EConsoleError "Error saving to cache:"
                                 (Some QuotaExceededError)] |})
    else
      (Ok tt,
       {| store := <[cacheKey this := text]> (store w); clock := clock w;
          trace := trace w ++ [ESetItem (cacheKey this) text] |}).
Proof.
  unfold saveToCache, cache_text. plumbing.
  destruct (quota_exceeded _ _ _); same_world.
Qed.

Lemma has_records (l : list jsval) (w : world) :
  (if truthy (JArr l) then nonempty (JArr l) else ret false) w =
    (Ok (match l with [] => false | _ => true end), w).
Proof.
  unfold nonempty. plumbing. cbn [truthy get_prop].
  destruct l; cbn -[Z.of_nat]; [reflexivity|].
  unfold gt_num. cbn -[Z.of_nat Z.ltb].
  replace (0 <? _)%Z with true; [reflexivity|]. symmetry. apply Z.ltb_lt. lia.
Qed.

Lemma fallback_usable (l : list jsval) (w : world) :
  nonempty (JArr l) w = (Ok (match l with [] => false | _ => true end), w).
Proof. apply (has_records l w). Qed.

Lemma onFulfilled_records (this : YouTubeChannelVideos) (records : list jsval)
    (w : world) :
  records <> [] ->
  onFulfilled this (JArr records) w =
    match saveToCache this (JArr records) w with
    | (Ok _, w1) => renderVideos (JArr records) w1
    | (Throw e, w1) => (Throw e, w1)
    end.
Proof.
  intros Hne. unfold onFulfilled. unfold bind at 1. rewrite has_records.
  destruct records as [|r rs]; [congruence|]. reflexivity.
Qed.




(** A handle that resolves to nothing makes the fetch fail like any other
    error. *)
Lemma fetchVideos_unresolved (this : YouTubeChannelVideos) (w w1 : world)
    (v : jsval) :
  channelId (opts this) = EmptyString ->
  channelUsername (opts this) <> EmptyString ->
  getChannelIdFromUsername this w = (Ok v, w1) ->
  truthy v = false ->
  fetchVideos this w =
    (Throw (Error "Could not determine channel ID"),
     emit (EConsoleError "Error in fetchVideos:"
             (Some (Error "Could not determine channel ID"))) w1).
Proof.
  intros Hid Hname Hresolve Hv. apply truthy_string in Hname.
  unfold fetchVideos. rewrite Hid, Hname. cbn [truthy String.eqb negb andb].
  unfold try_catch. unfold bind at 1. rewrite Hresolve, Hv. reflexivity.
Qed.


(** The three ways the rejection handler ends. *)
Lemma onRejected_cases (this : YouTubeChannelVideos) (e : jserror) (w : world)
    (r : result unit) (w' : world) :
  onRejected this e w = (r, w') ->
  let w1 := emit (EConsoleError "Error fetching YouTube videos:" (Some e)) w in
  (exists e', r = Throw e' /\ w' = w1) \/
  (r = Ok tt /\ w' = emit (EShowError "Failed to load videos") w1) \/
  (exists fallback,
     r = Ok tt /\
     w' = emit (ERenderVideos (JArr fallback))
            (emit (EConsoleLog "Using fallback videos due to API error") w1)).
Proof.
  cbv zeta. unfold onRejected. unfold bind at 1, console_error, log.
  unfold bind at 1.
  destruct (createFallbackVideos this _) as [[v|e'] w1] eqn:Hfb;
    pose proof (createFallbackVideos_world _ _ _ _ Hfb) as ->.
  - destruct (createFallbackVideos_returns this _ _ _ Hfb) as (l & -> & Hl).
    unfold bind at 1. rewrite fallback_usable.
    destruct l as [|record rest].
    + intros [= <- <-]. right. left. split; reflexivity.
    + unfold bind, console_log, log. rewrite (renderVideos_records _ _ Hl).
      intros [= <- <-]. right. right. eexists. split; reflexivity.
  - intros [= <- <-]. left. eexists. split; reflexivity.
Qed.

(** It begins with the call, adds nothing when the records are well formed,
    and never writes to the storage. *)
Lemma render_or_reject_run (this : YouTubeChannelVideos) (videos : jsval)
    (w : world) :
  exists r evs,
    try_catch (renderVideos videos) (onRejected this) w =
      (r, {| store := store w; clock := clock w;
             trace := trace w ++ ERenderVideos videos :: evs |}) /\
    Forall not_write evs /\
    (rendered_fallback evs -> render_calls evs <> []) /\
    (forall l, videos = JArr l -> Forall well_formed l -> r = Ok tt /\ evs = []).
Proof.
  unfold try_catch.
  destruct (renderVideos_call videos w) as [[[]|e] Hcall]; rewrite Hcall.
  - exists (Ok tt), []. split; [reflexivity|]. split; [constructor|].
    split; [intros [[]|[]]|]. intros l -> Hl. split; reflexivity.
  - destruct (onRejected this e (emit (ERenderVideos videos) w))
      as [r w'] eqn:Hcatch.
    assert (forall l, videos = JArr l -> ~ Forall well_formed l) as Hbad.
    { intros l -> Hl. rewrite (renderVideos_records _ _ Hl) in Hcall.
      discriminate Hcall. }
    destruct (onRejected_cases _ _ _ _ _ Hcatch)
      as [(e' & -> & ->) | [[-> ->] | (fallback & -> & ->)]];
      eexists _, _; (split; [plumbing; rewrite <- ?app_assoc; reflexivity|]);
      (split; [repeat constructor|]);
      (split; [|intros l Hv Hl; destruct (Hbad l Hv Hl)]).
    + intros [[H|[]]|[H|[]]]; discriminate H.
    + intros [[H|[H|[]]]|[H|[H|[]]]]; discriminate H.
    + intros _. discriminate.
Qed.

Lemma chain_after_fetch (this : YouTubeChannelVideos) (w1 w2 : world)
    (records : list jsval) :
  fetchVideos this w1 = (Ok (JArr records), w2) ->
  records <> [] ->
  then_catch (fetchVideos this) (onFulfilled this) (onRejected this) w1 =
    try_catch (renderVideos (JArr records)) (onRejected this)
      (snd (saveToCache this (JArr records) w2)).
Proof.
  intros Hfetch Hne. unfold then_catch, try_catch. unfold bind at 1.
  rewrite Hfetch, onFulfilled_records, saveToCache_run by assumption.
  cbv zeta. destruct (quota_exceeded _ _ _); reflexivity.
Qed.




(** ** Runs that render fallback records *)

Lemma no_write_refl (w : world) : no_write w w.
Proof. split; [reflexivity | apply grew_refl]. Qed.

Lemma no_write_trans (w1 w2 w3 : world) :
  no_write w1 w2 -> no_write w2 w3 -> no_write w1 w3.
Proof.
  intros [Hs1 Hg1] [Hs2 Hg2]. split; [congruence | eapply grew_trans; eauto].
Qed.

Lemma no_write_log (e : event) : not_write e -> preserves no_write (log e).
Proof.
  intros He w r w' [= <- <-]. split; [reflexivity | apply grew_emit, He].
Qed.

Lemma no_write_createFallbackVideos (this : YouTubeChannelVideos) :
  preserves no_write (createFallbackVideos this).
Proof.
  intros w r w' H. apply createFallbackVideos_world in H as ->.
  apply no_write_refl.
Qed.

Ltac writes_nothing :=
  footprint_by no_write_refl no_write_trans
    ltac:(first [ apply no_write_createFallbackVideos
                | apply no_write_log; exact I ]).

Lemma no_write_onRejected (this : YouTubeChannelVideos) (e : jserror) :
  preserves no_write (onRejected this e).
Proof.
  unfold onRejected, nonempty, console_error, console_log, renderVideos,
    videoCard, showError.
  writes_nothing.
Qed.

Lemma no_write_onFulfilled_empty (this : YouTubeChannelVideos) :
  preserves no_write (onFulfilled this (JArr [])).
Proof.
  intros w r w'. unfold onFulfilled. unfold bind at 1. rewrite has_records.
  match goal with
  | |- ?m w = _ -> _ =>
      assert (preserves no_write m) as Hm; [|intros H; exact (Hm _ _ _ H)]
  end.
  unfold nonempty, console_log, renderVideos, videoCard, showError.
  writes_nothing.
Qed.

Lemma render_calls_app (a b : list event) :
  render_calls (a ++ b) = render_calls a ++ render_calls b.
Proof.
  induction a as [|e a IH]; [reflexivity|].
  destruct e; cbn; rewrite ?IH; reflexivity.
Qed.

Lemma rendered_fallback_app (a b : list event) :
  rendered_fallback (a ++ b) <-> rendered_fallback a \/ rendered_fallback b.
Proof.
  unfold rendered_fallback. rewrite !in_app_iff. tauto.
Qed.

Lemma idle_no_render_calls (evs : list event) :
  Forall idle_event evs -> render_calls evs = [].
Proof.
  induction 1 as [|e evs He _ IH]; [reflexivity|].
  destruct e; cbn in *; tauto.
Qed.

Lemma idle_no_announcement (evs : list event) :
  Forall idle_event evs -> ~ rendered_fallback evs.
Proof.
  intros Hall [H|H]; exact (proj1 (List.Forall_forall _ _) Hall _ H).
Qed.

Lemma idle_not_write (e : event) : idle_event e -> not_write e.
Proof. destruct e; cbn; tauto. Qed.

Lemma network_idle (e : event) : network_event e -> idle_event e.
Proof. destruct e; cbn; tauto. Qed.

Lemma fallback_only_after_idle (a b : list event) :
  Forall idle_event a -> fallback_only (a ++ b) -> fallback_only b.
Proof.
  intros Ha [Hfb Hone]. split.
  - apply rendered_fallback_app in Hfb as [Hfb|Hfb]; [|exact Hfb].
    destruct (idle_no_announcement _ Ha Hfb).
  - rewrite render_calls_app, (idle_no_render_calls _ Ha) in Hone. exact Hone.
Qed.

Lemma grew_from_start (P : event -> Prop) (st : gmap string string) (now : Z)
    (w : world) :
  grew P (start st now) w -> Forall P (trace w).
Proof. intros (evs & -> & H). exact H. Qed.

Lemma cache_check_idle (key : string) (w : world) (v : jsval) (w0 : world) :
  cache_checked key w v w0 ->
  grew idle_event w w0 /\
  (store w0 = store w \/ store w0 = delete key (store w)).
Proof.
  intros [v' evs Hevs|]; split; cbn; auto.
  - exists (EGetItem key :: evs). split; [reflexivity|].
    constructor; [exact I|].
    eapply List.Forall_impl; [|exact Hevs]. intros [] H; cbn in *; tauto.
  - eexists. split; [reflexivity|]. repeat constructor.
Qed.

Lemma no_announcement_no_fallback (evs : list event) :
  Forall not_announcement evs -> ~ rendered_fallback evs.
Proof.
  intros Hall [H|H]; exact (proj1 (List.Forall_forall _ _) Hall _ H).
Qed.

Lemma not_fallback_only_after_render (saved tail : list event)
    (videos : jsval) :
  ~ rendered_fallback saved ->
  (rendered_fallback tail -> render_calls tail <> []) ->
  ~ fallback_only (saved ++ ERenderVideos videos :: tail).
Proof.
  intros Hsaved Htail [Hfb Hone].
  apply rendered_fallback_app in Hfb as [Hfb|Hfb]; [exact (Hsaved Hfb)|].
  assert (rendered_fallback tail) as Hin
    by (destruct Hfb as [[H|H]|[H|H]]; try discriminate; [left|right]; exact H).
  apply Htail in Hin.
  rewrite render_calls_app, length_app in Hone. cbn in Hone.
  destruct (render_calls tail); [congruence | cbn in Hone; lia].
Qed.

(** After the fetch the chain takes one of two roads: the fallback road,
    on which nothing is written, or the road of the fetched records, which
    are saved and rendered and may be followed by a fallback render but never
    by a fallback-only one. *)
Lemma chain_roads (this : YouTubeChannelVideos) (w1 : world)
    (r : result unit) (w' : world) :
  then_catch (fetchVideos this) (onFulfilled this) (onRejected this) w1 = (r, w') ->
  exists w2 evs,
    network_step w1 w2 /\
    trace w' = trace w2 ++ evs /\
    ((store w' = store w2 /\ Forall not_write evs) \/ ~ fallback_only evs).
Proof.
  destruct (fetchVideos this w1) as [[v|e] w2] eqn:Hfetch;
    pose proof (fetchVideos_network this _ _ _ Hfetch) as Hnet.
  - destruct (fetchVideos_returns this _ _ _ Hfetch) as [records ->].
    destruct records as [|record rest].
    + unfold then_catch, try_catch. unfold bind at 1. rewrite Hfetch.
      intros Hrun.
      assert (no_write w2 w') as [Hs (evs & Ht & Hall)].
      { destruct (onFulfilled this (JArr []) w2) as [[[]|e] w3] eqn:Hthen;
          pose proof (no_write_onFulfilled_empty this _ _ _ Hthen) as H3.
        - injection Hrun as <- <-. exact H3.
        - eapply no_write_trans; [exact H3|].
          eapply no_write_onRejected, Hrun. }
      exists w2, evs. auto.
    + rewrite (chain_after_fetch _ _ _ _ Hfetch) by discriminate.
      rewrite saveToCache_run. cbv zeta.
      destruct (quota_exceeded _ _ _); cbn [snd];
        match goal with
        | |- try_catch _ _ ?w3 = _ -> _ =>
            destruct (render_or_reject_run this (JArr (record :: rest)) w3)
              as (r3 & tail & Hrun & _ & Htail & _)
        end;
        rewrite Hrun; intros [= <- <-]; exists w2; eexists;
        (split; [exact Hnet|]);
        (split; [cbn [trace]; rewrite <- app_assoc; reflexivity|]);
        right; apply not_fallback_only_after_render; try exact Htail;
        apply no_announcement_no_fallback; repeat constructor.
  - unfold then_catch, try_catch. unfold bind at 1. rewrite Hfetch.
    intros Hrun.
    destruct (no_write_onRejected this e _ _ _ Hrun) as [Hs (evs & Ht & Hall)].
    exists w2, evs. auto.
Qed.

(** C4, as amended. For every run of [init] whose only render is one of
    fallback records, the cache is never written: no [setItem] is issued, and
    after the run the storage is what the cache check left, which is the
    storage found when the run began or, when the check evicted an expired
    entry, that storage without the entry under the channel's key. *)
Theorem fallback_render_never_writes_cache (this : YouTubeChannelVideos)
    (st : gmap string string) (now : Z) (r : result unit) (w' : world) :
  init this (start st now) = (r, w') ->
  fallback_only (trace w') ->
  (forall key text, ~ In (ESetItem key text) (trace w')) /\
  store w' = store (snd (getFromCache this (start st now))) /\
  (store w' = st \/ store w' = delete (cacheKey this) st).
Proof.
  intros Hrun Hfb.
  destruct (valid_configuration this) eqn:Hvalid.
  2: { destruct (init_aborts this (start st now) Hvalid) as [msg Hab].
       rewrite Hab in Hrun. injection Hrun as <- <-.
       destruct Hfb as [[[H|[]]|[H|[]]] _]; discriminate. }
  destruct (getFromCache_checked this (start st now)) as (v & w0 & Hget & Hchk).
  rewrite (init_checks_cache _ _ Hvalid), Hget in Hrun. cbn [snd].
  apply cache_check_idle in Hchk as [Hidle Hstore]. cbn [store start] in Hstore.
  destruct (truthy v).
  - exfalso. destruct (renderVideos_call v w0) as [r0 Hcall].
    rewrite Hcall in Hrun. injection Hrun as <- <-.
    destruct Hfb as [Hfb _]. cbn [trace emit] in Hfb.
    apply rendered_fallback_app in Hfb as [Hfb|[[H|[]]|[H|[]]]];
      try discriminate.
    exact (idle_no_announcement _ (grew_from_start _ _ _ _ Hidle) Hfb).
  - apply chain_roads in Hrun as (w2 & evs & [Hs2 Hnet] & Ht & Hroad).
    assert (Forall idle_event (trace w2)) as Hprefix.
    { apply (grew_from_start _ st now).
      eapply grew_trans; [exact Hidle|].
      eapply grew_trans; [apply (grew_emit _ EShowLoading); exact I|].
      exact (grew_weaken _ _ _ _ network_idle Hnet). }
    rewrite Ht in Hfb. apply (fallback_only_after_idle _ _ Hprefix) in Hfb.
    destruct Hroad as [[Hs' Hall] | Hnot]; [|destruct (Hnot Hfb)].
    assert (store w' = store w0) as Hsame by (rewrite Hs', Hs2; reflexivity).
    split; [|split].
    + intros key text Hin. rewrite Ht in Hin.
      apply in_app_or in Hin as [Hin|Hin].
      * exact (idle_not_write _ (proj1 (List.Forall_forall _ _) Hprefix _ Hin)).
      * exact (proj1 (List.Forall_forall _ _) Hall _ Hin).
    + rewrite Hget. exact Hsame.
    + rewrite Hsame. exact Hstore.
Qed.

(** A configuration that passes the guards is not turned away: the first
    thing its run does is read the cache. *)
Lemma init_reads_cache_first (this : YouTubeChannelVideos) (w : world) :
  valid_configuration this = true ->
  exists r w' evs,
    init this w = (r, w') /\
    trace w' = trace w ++ EGetItem (cacheKey this) :: evs.
Proof.
  intros Hvalid. rewrite (init_checks_cache _ _ Hvalid).
  destruct (getFromCache_checked this w) as (v & w0 & Hget & Hchk).
  rewrite Hget.
  assert (exists evs0, trace w0 = trace w ++ EGetItem (cacheKey this) :: evs0)
    as [evs0 Hw0] by (destruct Hchk; eexists; reflexivity).
  destruct (truthy v).
  - destruct (renderVideos_call v w0) as [r0 Hcall]. rewrite Hcall.
    eexists _, _, _. split; [reflexivity|]. cbn [trace emit].
    rewrite Hw0, <- app_assoc. reflexivity.
  - destruct (then_catch _ _ _ _) as [r w'] eqn:Hrun.
    apply chain_roads in Hrun as (w2 & evs & [_ (evs1 & Ht1 & _)] & Ht & _).
    eexists _, _, _. split; [reflexivity|].
    rewrite Ht, Ht1. cbn [trace emit]. rewrite Hw0.
    rewrite <- !app_assoc. reflexivity.
Qed.

(** ** The fallback composer *)

Lemma fallbackVideo_entry (v : jsval) (e : fallback_entry) (index : nat)
    (w : world) :
  represents v e ->
  fallbackVideo v (Z.of_nat index) w =
    (Ok (composed_record (clock w) index e), w).
Proof.
  intros [id | props id title url Hid Htitle Hurl];
    unfold fallbackVideo, composed_record, entry_title, entry_url, given,
      watch_url, thumbnail_url;
    plumbing; cbn [typeof_object get_prop entry_id]; [reflexivity|].
  rewrite Hid, Htitle, Hurl.
  destruct title as [title|], url as [url|];
    cbn [optional_value truthy to_string negb];
    repeat match goal with
           | |- context [String.eqb ?s EmptyString] =>
               destruct (String.eqb s EmptyString)
           end;
    reflexivity.
Qed.

Lemma mapM_from_entries (l : list jsval) (entries : list fallback_entry)
    (index : nat) (w : world) :
  Forall2 represents l entries ->
  mapM_from (Z.of_nat index) fallbackVideo l w =
    (Ok (composed_from (clock w) index entries), w).
Proof.
  intros H. revert index.
  induction H as [|v e l entries Hv _ IH]; intros index; cbn [mapM_from].
  - reflexivity.
  - unfold bind at 1. rewrite (fallbackVideo_entry _ _ _ _ Hv).
    unfold bind at 1.
    replace (Z.of_nat index + 1) with (Z.of_nat (S index)) by lia.
    rewrite IH. reflexivity.
Qed.

Lemma composed_from_length (now : Z) (index : nat)
    (entries : list fallback_entry) :
  length (composed_from now index entries) = length entries.
Proof.
  revert index. induction entries as [|e rest IH]; intros index; cbn;
    [reflexivity | rewrite IH; reflexivity].
Qed.

Lemma composed_from_lookup (now : Z) (index : nat)
    (entries : list fallback_entry) (i : nat) (e : fallback_entry) :
  entries !! i = Some e ->
  composed_from now index entries !! i =
    Some (composed_record now (index + i) e).
Proof.
  revert index i. induction entries as [|e' rest IH]; intros index [|i] H;
    try discriminate.
  - injection H as ->. cbn. rewrite Nat.add_0_r. reflexivity.
  - change (rest !! i = Some e) in H.
    change (composed_from now (S index) rest !! i =
            Some (composed_record now (index + S i) e)).
    rewrite (IH (S index) i H). do 2 f_equal. lia.
Qed.

Lemma array_is_usable (l : list jsval) :
  truthy (JArr l) = true /\
  (let len := JNum (Z.of_nat (length l)) in
   get_prop (JArr l) "length" = Ok len /\
   strict_eq_zero len = match l with [] => true | _ => false end).
Proof. destruct l; repeat split. Qed.

Lemma createFallbackVideos_array_run (this : YouTubeChannelVideos)
    (l : list jsval) (w : world) :
  fallbackVideos (opts this) = JArr l ->
  createFallbackVideos this w =
    match l with
    | [] => (Ok (JArr []), w)
    | _ =>
        match mapM_from 0 fallbackVideo l w with
        | (Ok l', w') => (Ok (JArr l'), w')
        | (Throw e, w') => (Throw e, w')
        end
    end.
Proof.
  intros Hfb. unfold createFallbackVideos. rewrite Hfb.
  destruct (array_is_usable l) as (Ht & Hlen & Hzero).
  rewrite Ht. unfold bind at 1. cbn [negb]. unfold bind at 1, lift.
  rewrite Hlen. unfold ret at 1. rewrite Hzero.
  destruct l; reflexivity.
Qed.

(** C6. For every configured fallback list, the composer answers, without
    touching the world, a sequence of records of the same length in the same
    order, the record at each position being the one its contract owes for
    the entry at that position. So the bare string "abc123" in first position
    gives the title "Video 1", the watch URL of abc123 and the thumbnail URL
    of abc123, and the entry with identifier "xyz" and title "Custom" keeps
    its title, at any position, and gets the same URL patterns from its
    identifier. *)
Theorem createFallbackVideos_composes (this : YouTubeChannelVideos) (w : world)
    (l : list jsval) (entries : list fallback_entry) :
  fallbackVideos (opts this) = JArr l ->
  Forall2 represents l entries ->
  (exists records,
     createFallbackVideos this w = (Ok (JArr records), w) /\
     length records = length entries /\
     forall i e,
       entries !! i = Some e ->
       records !! i = Some (composed_record (clock w) i e)) /\
  composed_record (clock w) 0 (BareId "abc123") =
    JObj [("id", JStr "abc123");
          ("title", JStr "Video 1");
          ("description", JStr EmptyString);
          ("thumbnail",
           JObj [("url", JStr "https://i.ytimg.com/vi/abc123/hqdefault.jpg");
                 ("width", JNum 480);
                 ("height", JNum 360)]);
          ("publishedAt", JDate (Some (clock w)));
          ("channelTitle", JStr "Alaan TV Channel");
          ("url", JStr "https://www.youtube.com/watch?v=abc123")] /\
  forall i,
    composed_record (clock w) i (Structured "xyz" (Some "Custom") None) =
      JObj [("id", JStr "xyz");
            ("title", JStr "Custom");
            ("description", JStr EmptyString);
            ("thumbnail",
             JObj [("url", JStr "https://i.ytimg.com/vi/xyz/hqdefault.jpg");
                   ("width", JNum 480);
                   ("height", JNum 360)]);
            ("publishedAt", JDate (Some (clock w)));
            ("channelTitle", JStr "Alaan TV Channel");
            ("url", JStr "https://www.youtube.com/watch?v=xyz")].
Proof.
  intros Hfb Hl. split; [|split; [reflexivity | intros i; reflexivity]].
  exists (composed_from (clock w) 0 entries).
  split; [|split].
  - rewrite (createFallbackVideos_array_run _ _ _ Hfb).
    pose proof (mapM_from_entries l entries 0 w Hl) as Hrun.
    change (Z.of_nat 0) with 0 in Hrun. rewrite Hrun.
    destruct Hl; reflexivity.
  - apply composed_from_length.
  - intros i e Hi. apply (composed_from_lookup _ 0 _ _ _ Hi).
Qed.

Lemma fallbackVideo_run (video : jsval) (index : Z) (w : world) :
  match and_then (identifier_of video) to_string with
  | Ok _ => exists record, fallbackVideo video index w = (Ok record, w)
  | Throw _ => fallbackVideo video index w = (Throw TypeError, w)
  end.
Proof.
  unfold fallbackVideo, identifier_of.
  destruct (typeof_object video) eqn:Hobject; cbn [and_then andb].
  - destruct (get_prop video "id") as [id|e] eqn:Hid; cbn [and_then].
    2: { destruct video; try discriminate Hobject; try discriminate Hid.
         injection Hid as <-. reflexivity. }
    destruct (get_prop_total _ _ "title" _ Hid) as [title Htitle].
    destruct (get_prop_total _ _ "url" _ Hid) as [url Hurl].
    plumbing. rewrite Htitle, Hurl.
    destruct (to_string id) as [text|e] eqn:Htext; [|unfold to_string in Htext];
      destruct (truthy url); eauto;
      destruct (text_of id); congruence.
  - plumbing.
    destruct (to_string video) as [text|e] eqn:Htext; [eauto|].
    unfold to_string in Htext. destruct (text_of video); congruence.
Qed.

Lemma usable_entry_run (video : jsval) :
  usable_entry video <->
  exists text, and_then (identifier_of video) to_string = Ok text.
Proof.
  unfold usable_entry. split.
  - intros (id & text & -> & Htext). exists text. exact Htext.
  - intros [text H]. destruct (identifier_of video) as [id|e]; [|discriminate].
    exists id, text. auto.
Qed.

Lemma mapM_from_usable (l : list jsval) (index : Z) (w : world) :
  Forall usable_entry l ->
  exists records,
    mapM_from index fallbackVideo l w = (Ok records, w) /\
    length records = length l.
Proof.
  intros Hl. revert index.
  induction Hl as [|video rest Hvideo _ IH]; intros index; cbn [mapM_from].
  - exists []. split; reflexivity.
  - apply usable_entry_run in Hvideo as [text Htext].
    pose proof (fallbackVideo_run video index w) as Hrun.
    rewrite Htext in Hrun. destruct Hrun as [record Hrecord].
    destruct (IH (index + 1)) as (records & Hrest & Hlen).
    exists (record :: records). unfold bind at 1. rewrite Hrecord.
    unfold bind at 1. rewrite Hrest. split; [reflexivity|].
    cbn. rewrite Hlen. reflexivity.
Qed.

Lemma mapM_from_unusable (l : list jsval) (index : Z) (w : world) :
  Exists (fun video => ~ usable_entry video) l ->
  mapM_from index fallbackVideo l w = (Throw TypeError, w).
Proof.
  intros Hl. revert index.
  induction Hl as [video rest Hvideo | video rest _ IH]; intros index;
    cbn [mapM_from]; unfold bind at 1;
    pose proof (fallbackVideo_run video index w) as Hrun;
    destruct (and_then (identifier_of video) to_string) as [text|e] eqn:Htext.
  - destruct Hvideo. apply usable_entry_run. eauto.
  - rewrite Hrun. reflexivity.
  - destruct Hrun as [record ->]. unfold bind at 1. rewrite IH. reflexivity.
  - rewrite Hrun. reflexivity.
Qed.

(** C7, as amended. For every input the composer stays local: the world it
    leaves is the world it found, so it makes no network call (and touches
    neither storage nor render target). A missing, falsy or empty fallback
    list gives the empty sequence. An array of usable entries (none is
    [null], and the identifier of each can be turned into text) gives,
    without an error, one record for each entry, other malformed entries
    included; an array with an entry that is not usable makes the composer
    raise a [TypeError]. *)
Theorem createFallbackVideos_stays_local (this : YouTubeChannelVideos)
    (w : world) :
  (exists r, createFallbackVideos this w = (r, w)) /\
  (truthy (fallbackVideos (opts this)) = false \/
   fallbackVideos (opts this) = JArr [] ->
   createFallbackVideos this w = (Ok (JArr []), w)) /\
  (forall entries,
     fallbackVideos (opts this) = JArr entries ->
     Forall usable_entry entries ->
     exists records,
       createFallbackVideos this w = (Ok (JArr records), w) /\
       length records = length entries) /\
  (forall entries,
     fallbackVideos (opts this) = JArr entries ->
     Exists (fun video => ~ usable_entry video) entries ->
     createFallbackVideos this w = (Throw TypeError, w)).
Proof.
  split; [|split; [|split]].
  - eexists. apply createFallbackVideos_clocked.
  - intros [Hfalsy | Hempty].
    + unfold createFallbackVideos. rewrite Hfalsy. reflexivity.
    + apply (createFallbackVideos_array_run _ _ _ Hempty).
  - intros entries Hfb Husable.
    rewrite (createFallbackVideos_array_run _ _ _ Hfb).
    destruct (mapM_from_usable entries 0 w Husable) as (records & Hrun & Hlen).
    rewrite Hrun. destruct entries.
    + exists []. split; reflexivity.
    + exists records. split; [reflexivity | exact Hlen].
  - intros entries Hfb Hbad.
    rewrite (createFallbackVideos_array_run _ _ _ Hfb).
    rewrite (mapM_from_unusable entries 0 w Hbad).
    destruct entries; [inversion Hbad | reflexivity].
Qed.

End Properties.

(** ** The claims at concrete inputs *)

Section Examples.

Import Demo.

Lemma stored_entry (b : Browser) :
  JSON_parse = parse ->
  cached stored key (JArr [first_video]) 1000.
Proof.
  intros Hparse. exists (stringify entry), entry. rewrite Hparse.
  repeat split; try (vm_compute; reflexivity).
  intros H. vm_compute in H. discriminate H.
Qed.

Lemma getFromCache_evicts_expired_witness :
  cached (B := unplugged) stored key (JArr [first_video]) 1000 /\
  1000 + 3600 * 1000 < 3601001 /\
  getFromCache (B := unplugged) (widget (JArr [])) (start stored 3601001) =
    (Ok JNull,
     {| store := delete key stored; clock := 3601001;
        trace := [EGetItem key; ERemoveItem key] |}).
Proof.
  assert (Hentry := stored_entry unplugged eq_refl).
  assert (Hlate : 1000 + 3600 * 1000 < 3601001) by reflexivity.
  split; [exact Hentry|]. split; [exact Hlate|].
  exact (getFromCache_evicts_expired (B := unplugged) (widget (JArr []))
           (start stored 3601001) _ _ Hentry Hlate).
Defined.

(** C1 as stated fails where capture time plus time-to-live equals the
    current time: the entry captured at 1000 with an hour to live is still
    served at 3601000, and stays in the storage. *)
Lemma getFromCache_keeps_entry_at_expiry :
  cached (B := unplugged) stored key (JArr [first_video]) 1000 /\
  1000 + 3600 * 1000 <= 3601000 /\
  getFromCache (B := unplugged) (widget (JArr [])) (start stored 3601000) =
    (Ok (JArr [first_video]),
     {| store := stored; clock := 3601000; trace := [EGetItem key] |}).
Proof.
  split; [exact (stored_entry unplugged eq_refl)|].
  split; [discriminate|].
  vm_compute. reflexivity.
Qed.

Lemma getFromCache_survives_unreadable_witness :
  littered !! key = Some garbage /\
  unreadable (B := unplugged) garbage /\
  exists v evs,
    getFromCache (B := unplugged) (widget (JArr [])) (start littered 5000) =
      (Ok v, {| store := littered; clock := 5000;
                trace := EGetItem key :: evs |}) /\
    truthy v = false /\
    Forall console_error_event evs.
Proof.
  assert (Hst : littered !! key = Some garbage) by reflexivity.
  assert (Hbad : unreadable (B := unplugged) garbage)
    by (apply unreadable_syntax; reflexivity).
  split; [exact Hst|]. split; [exact Hbad|].
  exact (getFromCache_survives_unreadable (B := unplugged) (widget (JArr []))
           (start littered 5000) garbage Hst Hbad).
Defined.

(** C10 as stated fails on a stored value that is not a records-and-capture-
    time structure because the capture time is missing: the entry is served
    as a hit, whatever the time. *)
Lemma getFromCache_serves_undated_entry :
  JSON_parse (Browser := unplugged) (stringify undated_entry) = Some undated_entry /\
  get_prop undated_entry "timestamp" = Ok JUndefined /\
  forall now,
    getFromCache (B := unplugged) (widget (JArr [])) (start undated now) =
      (Ok (JArr [first_video]),
       {| store := undated; clock := now; trace := [EGetItem key] |}) /\
    truthy (JArr [first_video]) = true.
Proof.
  split; [reflexivity|]. split; [reflexivity|].
  intros now. split; reflexivity.
Qed.

Lemma init_rejects_invalid_configuration_witness :
  (container widget_without_key = false \/
   apiKey (opts widget_without_key) = EmptyString \/
   (channelId (opts widget_without_key) = EmptyString /\
    channelUsername (opts widget_without_key) = EmptyString)) /\
  exists msg,
    init (B := roomy) widget_without_key (start stored 5000) =
      (Ok tt, {| store := stored; clock := 5000;
                 trace := [EConsoleError msg None] |}).
Proof.
  assert (H : container widget_without_key = false \/
              apiKey (opts widget_without_key) = EmptyString \/
              (channelId (opts widget_without_key) = EmptyString /\
               channelUsername (opts widget_without_key) = EmptyString))
    by (right; left; reflexivity).
  split; [exact H|].
  exact (init_rejects_invalid_configuration (B := roomy) widget_without_key
           (start stored 5000) H).
Defined.

(** C2 as stated fails on a configuration that has both a channel identifier
    and a handle: it is not turned away, the run goes through the cache
    check, the fetch, the cache write and the render. *)
Lemma init_accepts_identifier_and_handle :
  channelId (opts widget_with_both) <> EmptyString /\
  channelUsername (opts widget_with_both) <> EmptyString /\
  init (B := roomy) widget_with_both (start ∅ 5000) =
    (Ok tt,
     {| store := {[key := stringify (JObj [("videos", JArr uploaded);
                                            ("timestamp", JNum 5100)])]};
        clock := 5100;
        trace := [EGetItem key; EShowLoading;
                  EFetch channel_url; EFetch uploads_url;
                  ESetItem key (stringify (JObj [("videos", JArr uploaded);
                                                 ("timestamp", JNum 5100)]));
                  ERenderVideos (JArr uploaded)] |}).
Proof.
  split; [discriminate|]. split; [discriminate|].
  vm_compute. reflexivity.
Qed.

Lemma loading_asked (b : Browser) (fallback : jsval) :
  JSON_parse = parse ->
  loading (widget fallback) (start ∅ 5000) asked.
Proof.
  intros Hparse. split; [reflexivity|].
  exists JNull, {| store := ∅; clock := 5000; trace := [EGetItem key] |}.
  repeat split.
Qed.




Lemma fallback_list_configured :
  Forall2 represents
    [JStr "abc123"; JObj [("id", JStr "xyz"); ("title", JStr "Custom")]]
    configured.
Proof.
  constructor; [apply represents_bare|].
  constructor; [|constructor].
  apply (represents_structured _ "xyz" (Some "Custom") None); reflexivity.
Qed.


Lemma fallen_back_run :
  init (B := silent) (widget fallback_list) (start stored 3601001) =
    (Ok tt, fallen_back).
Proof. vm_compute. reflexivity. Qed.

Lemma fallen_back_only : fallback_only (trace fallen_back).
Proof. split; [left; cbn; tauto | reflexivity]. Qed.

Lemma fallback_render_never_writes_cache_witness :
  init (B := silent) (widget fallback_list) (start stored 3601001) =
    (Ok tt, fallen_back) /\
  fallback_only (trace fallen_back) /\
  (forall key text, ~ In (ESetItem key text) (trace fallen_back)) /\
  store fallen_back =
    store (snd (getFromCache (B := silent) (widget fallback_list)
                  (start stored 3601001))) /\
  (store fallen_back = stored \/ store fallen_back = delete key stored).
Proof.
  split; [exact fallen_back_run|]. split; [exact fallen_back_only|].
  exact (fallback_render_never_writes_cache (B := silent) (widget fallback_list)
           stored 3601001 (Ok tt) fallen_back fallen_back_run
           fallen_back_only).
Defined.

(** C4 as stated fails on a run that finds an expired entry: the run renders
    fallback records, and the entry that was in the storage before the run
    is gone after it. *)
Lemma fallback_render_after_eviction :
  init (B := silent) (widget fallback_list) (start stored 3601001) =
    (Ok tt, fallen_back) /\
  fallback_only (trace fallen_back) /\
  stored !! key = Some (stringify entry) /\
  store fallen_back !! key = None.
Proof.
  split; [exact fallen_back_run|].
  split; [exact fallen_back_only|].
  split; reflexivity.
Qed.

(** Outside the fallback-only renders: an upload without a thumbnail makes
    [renderVideos] raise after the cache write, inside the promise chain, and
    the rejection handler then renders the fallback records. The run has two
    render calls, and the storage holds the fetched record. *)
Lemma init_falls_back_after_cache_write :
  exists w',
    init (B := bare) (widget fallback_list) (start ∅ 5000) = (Ok tt, w') /\
    render_calls (trace w') =
      [JArr [bare_video]; JArr (composed_from 5100 0 configured)] /\
    rendered_fallback (trace w') /\
    ~ fallback_only (trace w') /\
    store w' !! key = Some (cache_text (B := bare) (JArr [bare_video]) 5100).
Proof.
  eexists. split; [vm_compute; reflexivity|].
  split; [reflexivity|].
  split; [right; cbn; tauto|].
  split; [intros [_ H]; discriminate H | reflexivity].
Qed.

(** C8. The code fails the claim on a fresh entry that holds a record
    without thumbnail, an entry the widget writes itself: the run above
    leaves one in the storage, and a run of [init] on that storage within the
    time-to-live reads it, calls [renderVideos] on the cached record and
    ends there with the [TypeError] of [video.thumbnail.url]. Nothing
    catches it on this path (the same call in the promise chain is followed
    by the rejection handler and its fallback), so no record is shown and no
    fallback is tried, for every run until the entry expires. *)
Theorem init_throws_on_cached_record_without_thumbnail :
  exists w',
    init (B := bare) (widget fallback_list) (start ∅ 5000) = (Ok tt, w') /\
    cached (B := bare) (store w') key (JArr [cached_bare_video]) 5100 /\
    valid_configuration (widget fallback_list) = true /\
    5200 < 5100 + cacheExpiration (opts (widget fallback_list)) * 1000 /\
    init (B := bare) (widget fallback_list) (start (store w') 5200) =
      (Throw TypeError,
       {| store := store w'; clock := 5200;
          trace := [EGetItem key; ERenderVideos (JArr [cached_bare_video])] |}).
Proof.
  eexists. split; [vm_compute; reflexivity|]. cbn [store].
  split.
  { exists (stringify bare_entry), cached_bare_entry.
    repeat split; try (vm_compute; reflexivity).
    intros H. vm_compute in H. discriminate H. }
  split; [reflexivity|]. split; [reflexivity|].
  vm_compute. reflexivity.
Qed.

Lemma createFallbackVideos_composes_witness :
  fallbackVideos (opts (widget fallback_list)) =
    JArr [JStr "abc123"; JObj [("id", JStr "xyz"); ("title", JStr "Custom")]] /\
  Forall2 represents
    [JStr "abc123"; JObj [("id", JStr "xyz"); ("title", JStr "Custom")]]
    configured /\
  exists records,
    createFallbackVideos (B := unplugged) (widget fallback_list) (start ∅ 5000) =
      (Ok (JArr records), start ∅ 5000) /\
    length records = length configured /\
    forall i e,
      configured !! i = Some e ->
      records !! i = Some (composed_record 5000 i e).
Proof.
  assert (H : fallbackVideos (opts (widget fallback_list)) =
              JArr [JStr "abc123";
                    JObj [("id", JStr "xyz"); ("title", JStr "Custom")]])
    by reflexivity.
  split; [exact H|]. split; [exact fallback_list_configured|].
  exact (proj1 (createFallbackVideos_composes (B := unplugged)
                  (widget fallback_list) (start ∅ 5000) _ configured H
                  fallback_list_configured)).
Defined.

Lemma malformed_usable : Forall (usable_entry (B := unplugged)) malformed.
Proof. repeat constructor; eexists _, _; split; reflexivity. Qed.

Lemma createFallbackVideos_stays_local_witness :
  fallbackVideos (opts (widget (JArr malformed))) = JArr malformed /\
  Forall (usable_entry (B := unplugged)) malformed /\
  exists records,
    createFallbackVideos (B := unplugged) (widget (JArr malformed)) (start ∅ 5000) =
      (Ok (JArr records), start ∅ 5000) /\
    length records = length malformed.
Proof.
  assert (H : fallbackVideos (opts (widget (JArr malformed))) = JArr malformed)
    by reflexivity.
  split; [exact H|]. split; [exact malformed_usable|].
  exact (proj1 (proj2 (proj2 (createFallbackVideos_stays_local (B := unplugged)
                                (widget (JArr malformed)) (start ∅ 5000))))
           malformed H malformed_usable).
Defined.

(** C7 as stated fails on a fallback list with a [null] entry: the composer
    raises a [TypeError] instead of answering the empty sequence, and the run
    of [init] that needed the fallback ends in an unhandled rejection, with
    neither a render nor an error view. *)
Lemma createFallbackVideos_null_entry_throws :
  createFallbackVideos (B := unplugged) (widget (JArr [JNull])) (start ∅ 5000) =
    (Throw TypeError, start ∅ 5000) /\
  init (B := unplugged) (widget (JArr [JNull])) (start ∅ 5000) =
    (Throw TypeError,
     {| store := ∅; clock := 5050;
        trace := trace failed ++
                 [EConsoleError "Error fetching YouTube videos:"
                    (Some NetworkError)] |}).
Proof. split; vm_compute; reflexivity. Qed.

(** An entry whose identifier has no text is not usable either: the
    identifier is an object with a [toString] property of its own, which
    is not a function, and the template literals of the thumbnail address
    and of the watch URL cannot print it. *)
Lemma createFallbackVideos_unprintable_identifier_throws :
  ~ In JNull unprintable /\
  Exists (fun video => ~ usable_entry (B := unplugged) video) unprintable /\
  createFallbackVideos (B := unplugged) (widget (JArr unprintable)) (start ∅ 5000) =
    (Throw TypeError, start ∅ 5000).
Proof.
  split; [intros [H|[]]; discriminate H|].
  split; [|vm_compute; reflexivity].
  constructor. intros (id & text & Hid & Htext).
  injection Hid as <-. discriminate Htext.
Qed.

End Examples.

(** * Further properties

    ** Channel resolution *)

Section Resolution.

Context {B : Browser}.

Lemma items_absent_run (data : jsval) (w : world) :
  exists r, items_absent data w = (r, w).
Proof.
  unfold items_absent. plumbing.
  destruct (get_prop data "items") as [items|e]; [|eauto].
  destruct (truthy items); cbn [negb]; [|eauto].
  destruct (get_prop items "length"); eauto.
Qed.

Lemma items_absent_no_items (data : jsval) (w : world) :
  no_items data -> items_absent data w = (Ok true, w).
Proof.
  intros (items & Hitems & Hnone). unfold items_absent. plumbing.
  rewrite Hitems. destruct (truthy items) eqn:Ht; cbn [negb]; [|reflexivity].
  destruct Hnone as [Hf | Hlen]; [congruence|]. rewrite Hlen. reflexivity.
Qed.

(** A computation that changes nothing, caught by a handler that reports on
    the console and answers [null]. *)
Lemma reported_or_answered (body : M jsval) (msg : string) (w1 : world) :
  (exists r, body w1 = (r, w1)) ->
  exists v evs,
    try_catch body
      (fun error => do! console_error msg (Some error) in ret JNull) w1 =
      (Ok v, {| store := store w1; clock := clock w1;
                trace := trace w1 ++ evs |}) /\
    (evs = [] \/
     exists e, evs = [EConsoleError msg (Some e)] /\ v = JNull).
Proof.
  intros [r Hrun]. unfold try_catch. rewrite Hrun.
  destruct r as [v|e]; plumbing.
  - exists v, []. rewrite app_nil_r. destruct w1; split; [reflexivity|].
    left; reflexivity.
  - exists JNull, [EConsoleError msg (Some e)]. split; [reflexivity|].
    right. eauto.
Qed.

Lemma getChannelIdFromHandle_run (this : YouTubeChannelVideos) (w : world) :
  exists v evs,
    getChannelIdFromHandle this w =
      (Ok v,
       {| store := store w;
          clock := clock w + fetch_latency (handle_search_url this);
          trace := trace w ++ EFetch (handle_search_url this) :: evs |}) /\
    (evs = [] \/
     exists e,
       evs = [EConsoleError "Error getting channel ID from handle:" (Some e)] /\
       v = JNull).
Proof.
  unfold getChannelIdFromHandle. fold (handle_search_url this).
  set (url := handle_search_url this).
  unfold try_catch. unfold bind at 1. unfold fetch.
  destruct (fetch_response url) as [response|].
  2: { plumbing. eexists _, _. split; [rewrite <- app_assoc; reflexivity|].
       right. eauto. }
  fold (requested url w).
  match goal with
  | |- context [match ?body (requested url w) with _ => _ end] =>
      assert (exists r, body (requested url w) = (r, requested url w)) as [r Hr]
  end.
  { destruct (ok response); cbn [negb]; [|eexists; reflexivity].
    unfold response_json.
    destruct (body response) as [data|]; [|eexists; reflexivity].
    unfold bind at 1. unfold ret at 1.
    unfold bind at 1.
    destruct (items_absent_run data (requested url w)) as [[none|e] ->];
      [|eexists; reflexivity].
    destruct none; [eexists; reflexivity|]. plumbing.
    destruct (get_prop data "items") as [items|]; [|eexists; reflexivity].
    destruct (get_first items) as [item|]; [|eexists; reflexivity].
    destruct (get_prop item "snippet") as [snippet|]; [|eexists; reflexivity].
    eexists; reflexivity. }
  rewrite Hr. unfold requested.
  destruct r as [v|e]; plumbing.
  - exists v, []. split; [reflexivity | left; reflexivity].
  - eexists _, _. split; [rewrite <- app_assoc; reflexivity|]. right. eauto.
Qed.

Lemma fetches_app (a b : list event) :
  fetches (a ++ b) = fetches a ++ fetches b.
Proof.
  induction a as [|e a IH]; [reflexivity|].
  destruct e; cbn [fetches app]; rewrite ?IH; reflexivity.
Qed.

Lemma console_errors_fetch_nothing (evs : list event) :
  Forall console_error_event evs -> fetches evs = [].
Proof.
  induction 1 as [|e evs He _ IH]; [reflexivity|].
  destruct e; try contradiction. exact IH.
Qed.

Lemma items_absent_spec (data : jsval) (w : world) :
  exists r, items_absent data w = (r, w) /\ (r = Ok true <-> no_items data).
Proof.
  unfold items_absent, no_items. plumbing.
  destruct (get_prop data "items") as [items|e] eqn:Hitems.
  2: { eexists. split; [reflexivity|]. split; [discriminate|].
       intros (items & H & _). discriminate H. }
  destruct (truthy items) eqn:Ht; cbn [negb].
  2: { eexists. split; [reflexivity|]. split; [|reflexivity].
       intros _. exists items. auto. }
  destruct (get_prop items "length") as [len|e] eqn:Hlen.
  2: { eexists. split; [reflexivity|]. split; [discriminate|].
       intros (items' & [= <-] & [H|H]); congruence. }
  eexists. split; [reflexivity|]. split.
  - intros [= Hz]. exists items. split; [reflexivity|]. right.
    destruct len as [| | |n| | | | |]; try discriminate Hz.
    destruct n; try discriminate Hz. exact Hlen.
  - intros (items' & [= <-] & [H|H]); [congruence|].
    rewrite Hlen in H. injection H as ->. reflexivity.
Qed.

Lemma try_catch_bind {A C} (m : M A) (k : A -> M C) (h : jserror -> M C)
    (w : world) :
  try_catch (bind m k) h w =
    match m w with
    | (Ok a, w1) => try_catch (k a) h w1
    | (Throw e, w1) => h e w1
    end.
Proof. unfold try_catch, bind. destruct (m w) as [[a|e] w1]; reflexivity. Qed.

Lemma caught_quietly (body : M jsval) (msg : string) (w1 : world) :
  (exists r, body w1 = (r, w1)) ->
  exists v w',
    try_catch body
      (fun error => do! console_error msg (Some error) in ret JNull) w1 =
      (Ok v, w') /\
    store w' = store w1 /\
    fetches (trace w') = fetches (trace w1).
Proof.
  intros Hbody.
  destruct (reported_or_answered body msg w1 Hbody) as (v & evs & Hrun & Hevs).
  eexists _, _. split; [exact Hrun|]. cbn [store trace].
  split; [reflexivity|]. rewrite fetches_app.
  destruct Hevs as [-> | (e & -> & _)]; apply app_nil_r.
Qed.

(** The handle was searched: [rest] holds the requests that followed the
    lookup by name. *)
Lemma getChannelIdFromUsername_run (this : YouTubeChannelVideos) (w : world) :
  exists v w' rest,
    getChannelIdFromUsername this w = (Ok v, w') /\
    store w' = store w /\
    fetches (trace w') =
      fetches (trace w) ++ username_lookup_url this :: rest /\
    ((rest = [] /\
      ~ exists response data,
          fetch_response (username_lookup_url this) = Some response /\
          ok response = true /\
          body response = Some data /\
          no_items data) \/
     (rest = [handle_search_url this] /\
      exists response data,
        fetch_response (username_lookup_url this) = Some response /\
        ok response = true /\
        body response = Some data /\
        no_items data)).
Proof.
  unfold getChannelIdFromUsername. fold (username_lookup_url this).
  set (url := username_lookup_url this).
  rewrite try_catch_bind. unfold fetch.
  assert (fetches (trace (requested url w)) = fetches (trace w) ++ [url])
    as Hasked by (unfold requested; cbn [trace]; apply fetches_app).
  destruct (fetch_response url) as [response|] eqn:Hresponse.
  2: { plumbing. eexists _, _, []. split; [reflexivity|]. cbn [store trace].
       split; [reflexivity|]. rewrite <- app_assoc, fetches_app.
       split; [reflexivity|]. left. split; [reflexivity|].
       intros (? & ? & [=] & _). }
  fold (requested url w).
  assert (forall body : M jsval,
            (exists r, body (requested url w) = (r, requested url w)) ->
            exists v w',
              try_catch body
                (fun error =>
                   do! console_error "Error getting channel ID from username:"
                         (Some error) in ret JNull) (requested url w) =
                (Ok v, w') /\
              store w' = store w /\
              fetches (trace w') = fetches (trace w) ++ [url]) as Hquiet.
  { intros body0 Hbody0.
    destruct (caught_quietly body0 "Error getting channel ID from username:"
                _ Hbody0) as (v & w' & Hrun & Hs & Hf).
    exists v, w'. split; [exact Hrun|]. split; [exact Hs|].
    rewrite Hf. exact Hasked. }
  destruct (ok response) eqn:Hok; cbn [negb].
  2: { destruct (Hquiet (throw (Error "Failed to fetch channel ID")))
         as (v & w' & Hrun & Hs & Hf); [eexists; reflexivity|].
       exists v, w', []. split; [exact Hrun|]. split; [exact Hs|].
       split; [exact Hf|]. left. split; [reflexivity|].
       intros (? & ? & [= <-] & ? & _). congruence. }
  destruct (body response) as [data|] eqn:Hbody.
  2: { match goal with
       | |- context [try_catch ?b _ _] =>
           destruct (Hquiet b) as (v & w' & Hrun & Hs & Hf)
       end.
       { unfold response_json. rewrite Hbody. eexists; reflexivity. }
       exists v, w', []. split; [exact Hrun|]. split; [exact Hs|].
       split; [exact Hf|]. left. split; [reflexivity|].
       intros (? & ? & [= <-] & _ & ? & _). congruence. }
  destruct (items_absent_spec data (requested url w)) as (r & Habsent & Hspec).
  destruct r as [[|]|e].
  - (* nothing found by name: the handle is searched *)
    assert (no_items data) as Hnone by (apply Hspec; reflexivity).
    destruct (getChannelIdFromHandle_run this (requested url w))
      as (v & evs & Hhandle & Hevs).
    eexists v, _, [handle_search_url this]. split.
    { unfold try_catch, response_json. rewrite Hbody.
      unfold bind at 1. unfold ret at 1. unfold bind at 1. rewrite Habsent.
      rewrite Hhandle. reflexivity. }
    cbn [store trace]. split; [reflexivity|]. split.
    { rewrite (fetches_app _ (EFetch _ :: evs)), Hasked, <- app_assoc.
      cbn [fetches app]. rewrite (console_errors_fetch_nothing evs); [reflexivity|].
      destruct Hevs as [-> | (e & -> & _)]; repeat constructor. }
    right. split; [reflexivity|]. exists response, data. auto.
  - match goal with
    | |- context [try_catch ?b _ _] =>
        destruct (Hquiet b) as (v & w' & Hrun & Hs & Hf)
    end.
    { unfold response_json. rewrite Hbody.
      unfold bind at 1. unfold ret at 1. unfold bind at 1. rewrite Habsent.
      plumbing.
      destruct (get_prop data "items") as [items|]; [|eexists; reflexivity].
      destruct (get_first items) as [item|]; eexists; reflexivity. }
    exists v, w', []. split; [exact Hrun|]. split; [exact Hs|].
    split; [exact Hf|]. left. split; [reflexivity|].
    intros (? & ? & [= <-] & _ & Hb & Hnone). rewrite Hbody in Hb.
    injection Hb as <-. apply Hspec in Hnone. discriminate Hnone.
  - match goal with
    | |- context [try_catch ?b _ _] =>
        destruct (Hquiet b) as (v & w' & Hrun & Hs & Hf)
    end.
    { unfold response_json. rewrite Hbody.
      unfold bind at 1. unfold ret at 1. unfold bind at 1. rewrite Habsent.
      eexists; reflexivity. }
    exists v, w', []. split; [exact Hrun|]. split; [exact Hs|].
    split; [exact Hf|]. left. split; [reflexivity|].
    intros (? & ? & [= <-] & _ & Hb & Hnone). rewrite Hbody in Hb.
    injection Hb as <-. apply Hspec in Hnone. discriminate Hnone.
Qed.

Lemma has_items_not_absent (data items : jsval) :
  has_items data items -> ~ no_items data.
Proof.
  intros (Hitems & Ht & len & Hlen & Hz) (items' & Hitems' & Hnone).
  rewrite Hitems in Hitems'. injection Hitems' as <-.
  destruct Hnone as [Hf | Hzero]; [congruence|].
  rewrite Hlen in Hzero. injection Hzero as ->. discriminate Hz.
Qed.

(** X1. [getChannelIdFromHandle] never rejects. It issues one request, the
    search for the handle without its first "@", and leaves the storage
    alone; it answers the channel identifier of the first item found, and
    after any failure (no network, a status that is not ok, a body that is
    not JSON or has no items, a first item without snippet) one console
    report and [null]. *)
Theorem getChannelIdFromHandle_never_rejects (this : YouTubeChannelVideos)
    (w : world) :
  exists v evs,
    getChannelIdFromHandle this w =
      (Ok v,
       {| store := store w;
          clock := clock w + fetch_latency (handle_search_url this);
          trace := trace w ++ EFetch (handle_search_url this) :: evs |}) /\
    (evs = [] \/
     exists e,
       evs = [EConsoleError "Error getting channel ID from handle:" (Some e)] /\
       v = JNull) /\
    (forall data items item snippet channel,
       answers (handle_search_url this) data ->
       has_items data items ->
       get_first items = Ok item ->
       get_prop item "snippet" = Ok snippet ->
       get_prop snippet "channelId" = Ok channel ->
       v = channel /\ evs = []).
Proof.
  destruct (getChannelIdFromHandle_run this w) as (v & evs & Hrun & Hevs).
  exists v, evs. split; [exact Hrun|]. split; [exact Hevs|].
  intros data items item snippet channel (response & Hresponse & Hok & Hbody)
    (Hitems & Ht & len & Hlen & Hz) Hitem Hsnippet Hchannel.
  revert Hrun. unfold getChannelIdFromHandle. fold (handle_search_url this).
  rewrite try_catch_bind. unfold fetch. rewrite Hresponse, Hok. cbn [negb].
  unfold response_json. rewrite Hbody.
  unfold try_catch, items_absent. plumbing.
  rewrite Hitems, Ht. cbn [negb]. rewrite Hlen, Hz, Hitem, Hsnippet, Hchannel.
  intros [= <- Hevs']. split; [reflexivity|].
  destruct evs; [reflexivity|].
  apply (f_equal (@List.length event)) in Hevs'.
  rewrite !length_app in Hevs'. cbn [List.length] in Hevs'. lia.
Qed.

(** X2. [getChannelIdFromUsername] never rejects and leaves the storage
    alone. It requests the lookup by name, and after it the search by handle
    exactly when the lookup is answered, ok, without items; it requests
    nothing else. When the lookup finds items it answers the identifier of
    the first. *)
Theorem getChannelIdFromUsername_never_rejects (this : YouTubeChannelVideos)
    (w : world) :
  exists v w' rest,
    getChannelIdFromUsername this w = (Ok v, w') /\
    store w' = store w /\
    fetches (trace w') =
      fetches (trace w) ++ username_lookup_url this :: rest /\
    ((rest = [] /\
      ~ exists data, answers (username_lookup_url this) data /\ no_items data) \/
     (rest = [handle_search_url this] /\
      exists data, answers (username_lookup_url this) data /\ no_items data)) /\
    (forall data items item id,
       answers (username_lookup_url this) data ->
       has_items data items ->
       get_first items = Ok item ->
       get_prop item "id" = Ok id ->
       v = id).
Proof.
  destruct (getChannelIdFromUsername_run this w)
    as (v & w' & rest & Hrun & Hs & Hf & Hrest).
  exists v, w', rest. split; [exact Hrun|]. split; [exact Hs|].
  split; [exact Hf|]. split.
  - destruct Hrest as [[-> Hnot] | [-> (response & data & H)]].
    + left. split; [reflexivity|].
      intros (data & (response & H1 & H2 & H3) & H4). apply Hnot.
      exists response, data. auto.
    + right. split; [reflexivity|]. exists data. split; [|apply H].
      exists response. tauto.
  - intros data items item id (response & Hresponse & Hok & Hbody)
      (Hitems & Ht & len & Hlen & Hz) Hitem Hid.
    revert Hrun. unfold getChannelIdFromUsername.
    fold (username_lookup_url this).
    rewrite try_catch_bind. unfold fetch. rewrite Hresponse, Hok. cbn [negb].
    unfold response_json. rewrite Hbody.
    unfold try_catch, items_absent. plumbing.
    rewrite Hitems, Ht. cbn [negb]. rewrite Hlen, Hz, Hitem, Hid.
    intros [= <- _]. reflexivity.
Qed.

End Resolution.

(** ** Requests *)

Section Requests.

Context {B : Browser}.

Lemma requests_free {A} (n : nat) (m : M A) :
  requests_at_most 0 m -> requests_at_most n m.
Proof.
  intros Hm w r w' Hrun. destruct (Hm w r w' Hrun) as (Hs & evs & Ht & Hn & Hl).
  split; [exact Hs|]. exists evs. repeat split; auto. lia.
Qed.

Lemma requests_ret {A} (a : A) : requests_at_most 0 (ret a).
Proof.
  intros w r w' [= <- <-]. split; [reflexivity|]. exists [].
  rewrite app_nil_r. repeat split; auto.
Qed.

Lemma requests_throw {A} (e : jserror) : requests_at_most 0 (@throw A e).
Proof.
  intros w r w' [= <- <-]. split; [reflexivity|]. exists [].
  rewrite app_nil_r. repeat split; auto.
Qed.

Lemma requests_lift {A} (x : result A) : requests_at_most 0 (lift x).
Proof.
  intros w r w' [= <- <-]. split; [reflexivity|]. exists [].
  rewrite app_nil_r. repeat split; auto.
Qed.

Lemma requests_console_error (msg : string) (err : option jserror) :
  requests_at_most 0 (console_error msg err).
Proof.
  intros w r w' [= <- <-]. split; [reflexivity|].
  exists [EConsoleError msg err]. repeat split; auto. repeat constructor.
Qed.

Lemma requests_fetch (url : string) : requests_at_most 1 (fetch url).
Proof.
  intros w r w'. unfold fetch.
  destruct (fetch_response url); intros [= <- <-];
    (split; [reflexivity|]; exists [EFetch url]; repeat split; auto;
     repeat constructor).
Qed.

Lemma requests_bind {A C} (n1 n2 : nat) (m : M A) (k : A -> M C) :
  requests_at_most n1 m ->
  (forall a, requests_at_most n2 (k a)) ->
  requests_at_most (n1 + n2) (bind m k).
Proof.
  intros Hm Hk w r w'. unfold bind.
  destruct (m w) as [[a|e] w1] eqn:E;
    destruct (Hm _ _ _ E) as (Hs1 & evs1 & Ht1 & Hn1 & Hl1).
  - intros Hrun. destruct (Hk a _ _ _ Hrun) as (Hs2 & evs2 & Ht2 & Hn2 & Hl2).
    split; [congruence|]. exists (evs1 ++ evs2).
    rewrite Ht2, Ht1, app_assoc. split; [reflexivity|].
    split; [apply Forall_app; auto|].
    rewrite fetches_app, length_app. lia.
  - intros [= <- <-]. split; [exact Hs1|]. exists evs1.
    repeat split; auto. lia.
Qed.

Lemma requests_try_catch {A} (n1 n2 : nat) (m : M A) (h : jserror -> M A) :
  requests_at_most n1 m ->
  (forall e, requests_at_most n2 (h e)) ->
  requests_at_most (n1 + n2) (try_catch m h).
Proof.
  intros Hm Hh w r w'. unfold try_catch.
  destruct (m w) as [[a|e] w1] eqn:E;
    destruct (Hm _ _ _ E) as (Hs1 & evs1 & Ht1 & Hn1 & Hl1).
  - intros [= <- <-]. split; [exact Hs1|]. exists evs1.
    repeat split; auto. lia.
  - intros Hrun. destruct (Hh e _ _ _ Hrun) as (Hs2 & evs2 & Ht2 & Hn2 & Hl2).
    split; [congruence|]. exists (evs1 ++ evs2).
    rewrite Ht2, Ht1, app_assoc. split; [reflexivity|].
    split; [apply Forall_app; auto|].
    rewrite fetches_app, length_app. lia.
Qed.

Lemma requests_mapM {A C} (f : A -> M C) (l : list A) :
  (forall x, requests_at_most 0 (f x)) -> requests_at_most 0 (mapM f l).
Proof.
  intros Hf. induction l as [|x l IH]; cbn [mapM].
  - apply requests_ret.
  - apply (requests_bind 0 0); [apply Hf|]. intros y.
    apply (requests_bind 0 0); [apply IH|]. intros ys. apply requests_ret.
Qed.

End Requests.

(** Counts the requests of a computation along its structure: a request
    costs one, everything else the widget does on this path is free. *)
Ltac thrifty :=
  repeat first
    [ apply requests_ret
    | apply requests_throw
    | apply requests_lift
    | apply requests_console_error
    | apply requests_fetch
    | apply requests_mapM; intros ?
    | match goal with
      | |- requests_at_most (S ?n) (bind (fetch _) _) =>
          apply (requests_bind 1 n); [apply requests_fetch | intros ?]
      | |- requests_at_most ?n (bind _ _) =>
          apply (requests_bind 0 n); [|intros ?]
      | |- requests_at_most ?n (try_catch _ _) =>
          apply (requests_try_catch n 0); [|intros ?]
      | |- requests_at_most _ (if ?c then _ else _) => destruct c
      | |- requests_at_most _ (match ?x with _ => _ end) => destruct x
      end ].

(** Takes a computation apart along the combinators for a footprint given
    by a preorder; [leaf] settles the calls to collaborators. *)
Ltac along refl trans leaf :=
  repeat first
    [ apply preserves_ret; apply refl
    | apply preserves_throw; apply refl
    | apply preserves_lift; apply refl
    | apply preserves_Date_now; apply refl
    | leaf
    | apply preserves_bind; [apply trans| |intros ?]
    | apply preserves_try_catch; [apply trans| |intros ?]
    | apply preserves_mapM; [apply refl|apply trans|intros ?]
    | apply preserves_mapM_from; [apply refl|apply trans|intros ? ?]
    | match goal with
      | |- preserves _ (if ?c then _ else _) => destruct c
      | |- preserves _ (match ?x with _ => _ end) => destruct x
      end ].

Section Fetching.

Context {B : Browser}.

Lemma requests_items_absent (data : jsval) :
  requests_at_most 0 (items_absent data).
Proof. unfold items_absent. thrifty. Qed.

Lemma requests_response_json (r : response) :
  requests_at_most 0 (response_json r).
Proof. unfold response_json. thrifty. Qed.

Lemma requests_getChannelIdFromHandle (this : YouTubeChannelVideos) :
  requests_at_most 1 (getChannelIdFromHandle this).
Proof.
  unfold getChannelIdFromHandle.
  apply (requests_try_catch 1 0); [|intros e; thrifty].
  apply (requests_bind 1 0); [apply requests_fetch|]. intros response.
  destruct (negb (ok response)); [thrifty|].
  apply (requests_bind 0 0); [apply requests_response_json|]. intros data.
  apply (requests_bind 0 0); [apply requests_items_absent|]. intros none.
  thrifty.
Qed.

Lemma requests_getChannelIdFromUsername (this : YouTubeChannelVideos) :
  requests_at_most 2 (getChannelIdFromUsername this).
Proof.
  unfold getChannelIdFromUsername.
  apply (requests_try_catch 2 0); [|intros e; thrifty].
  apply (requests_bind 1 1); [apply requests_fetch|]. intros response.
  destruct (negb (ok response)); [apply requests_free; thrifty|].
  apply (requests_bind 0 1); [apply requests_response_json|]. intros data.
  apply (requests_bind 0 1); [apply requests_items_absent|]. intros none.
  destruct none; [apply requests_getChannelIdFromHandle|].
  apply requests_free. thrifty.
Qed.

Lemma requests_videoFromItem (item : jsval) :
  requests_at_most 0 (videoFromItem item).
Proof. unfold videoFromItem. thrifty. Qed.

Lemma fetchVideos_split (this : YouTubeChannelVideos) :
  fetchVideos this =
    fetchVideos_with this
      (if negb (truthy (JStr (channelId (opts this))))
          && truthy (JStr (channelUsername (opts this)))
       then getChannelIdFromUsername this
       else ret (JStr (channelId (opts this)))).
Proof. reflexivity. Qed.

Lemma fetchVideos_with_id (this : YouTubeChannelVideos) :
  channelId (opts this) <> EmptyString ->
  fetchVideos this =
    fetchVideos_with this (ret (JStr (channelId (opts this)))).
Proof.
  intros Hid. apply truthy_string in Hid.
  rewrite fetchVideos_split, Hid. reflexivity.
Qed.

Lemma requests_with_channel (this : YouTubeChannelVideos)
    (resolution : M jsval) (n : nat) :
  requests_at_most n resolution ->
  requests_at_most (n + 2) (fetchVideos_with this resolution).
Proof.
  intros Hres. unfold fetchVideos_with.
  replace (n + 2)%nat with ((n + 2) + 0)%nat by lia.
  apply requests_try_catch; [|intros e; thrifty].
  apply requests_bind; [exact Hres|]. intros channel.
  destruct (negb (truthy channel)); [apply requests_free; thrifty|].
  apply (requests_bind 0 2); [apply requests_lift|]. intros id.
  apply (requests_bind 1 1); [apply requests_fetch|]. intros channelResponse.
  destruct (negb (ok channelResponse)); [apply requests_free; thrifty|].
  apply (requests_bind 0 1); [apply requests_response_json|]. intros channelData.
  apply (requests_bind 0 1); [apply requests_items_absent|]. intros none.
  destruct none; [apply requests_free; thrifty|].
  do 6 (apply (requests_bind 0 1); [apply requests_lift|]; intros ?).
  apply (requests_bind 1 0); [apply requests_fetch|]. intros videosResponse.
  destruct (negb (ok videosResponse)); [thrifty|].
  apply (requests_bind 0 0); [apply requests_response_json|]. intros videosData.
  apply (requests_bind 0 0); [apply requests_items_absent|]. intros empty.
  destruct empty; [thrifty|].
  apply (requests_bind 0 0); [apply requests_lift|]. intros videoItems.
  unfold array_map. destruct videoItems; thrifty.
  all: apply requests_videoFromItem.
Qed.

Lemma requests_resolution (this : YouTubeChannelVideos) :
  requests_at_most 2
    (if negb (truthy (JStr (channelId (opts this))))
        && truthy (JStr (channelUsername (opts this)))
     then getChannelIdFromUsername this
     else ret (JStr (channelId (opts this)))).
Proof.
  destruct (_ && _).
  - apply requests_getChannelIdFromUsername.
  - apply requests_free, requests_ret.
Qed.

Lemma fetchVideos_spends (this : YouTubeChannelVideos) :
  requests_at_most 4 (fetchVideos this).
Proof.
  rewrite fetchVideos_split.
  apply (requests_with_channel this _ 2), requests_resolution.
Qed.

(** X3. A run of [fetchVideos] leaves the storage alone and only issues
    requests and console errors: four requests at most, and two at most
    when the channel identifier is configured. *)
Theorem fetchVideos_requests (this : YouTubeChannelVideos) :
  requests_at_most 4 (fetchVideos this) /\
  (channelId (opts this) <> EmptyString ->
   requests_at_most 2 (fetchVideos this)).
Proof.
  split; [apply fetchVideos_spends|].
  intros Hid. rewrite (fetchVideos_with_id this Hid).
  apply (requests_with_channel this _ 0), requests_ret.
Qed.

(** *** What a rejection leaves on the console *)

Lemma resolution_refl (w : world) : grew resolution_event w w.
Proof. apply grew_refl. Qed.

Lemma resolution_trans (w1 w2 w3 : world) :
  grew resolution_event w1 w2 -> grew resolution_event w2 w3 ->
  grew resolution_event w1 w3.
Proof. apply grew_trans. Qed.

Lemma resolution_fetch (url : string) :
  preserves (grew resolution_event) (fetch url).
Proof.
  intros w r w'. unfold fetch.
  destruct (fetch_response url); intros [= <- <-];
    (exists [EFetch url]; split; [reflexivity | repeat constructor]).
Qed.

Lemma resolution_report (msg : string) (err : option jserror) :
  msg = "Error getting channel ID from username:" \/
  msg = "Error getting channel ID from handle:" ->
  preserves (grew resolution_event) (console_error msg err).
Proof.
  intros Hmsg w r w' [= <- <-]. apply grew_emit. exact Hmsg.
Qed.

Lemma resolution_getChannelIdFromHandle (this : YouTubeChannelVideos) :
  preserves (grew resolution_event) (getChannelIdFromHandle this).
Proof.
  unfold getChannelIdFromHandle, items_absent, response_json.
  along resolution_refl resolution_trans
    ltac:(first [ apply resolution_fetch
                | apply resolution_report; auto ]).
Qed.

Lemma resolution_getChannelIdFromUsername (this : YouTubeChannelVideos) :
  preserves (grew resolution_event) (getChannelIdFromUsername this).
Proof.
  unfold getChannelIdFromUsername, items_absent, response_json.
  along resolution_refl resolution_trans
    ltac:(first [ apply resolution_getChannelIdFromHandle
                | apply resolution_fetch
                | apply resolution_report; auto ]).
Qed.

Lemma fetchVideos_outcome (this : YouTubeChannelVideos) (w : world)
    (r : result jsval) (w' : world) :
  fetchVideos this w = (r, w') ->
  exists w1,
    grew resolution_event w w1 /\
    match r with
    | Ok v => w' = w1 /\ exists l, v = JArr l
    | Throw e => (r, w') = rejected e w1
    end.
Proof.
  intros Hrun. pose proof Hrun as Hrun0. revert Hrun.
  rewrite fetchVideos_split. unfold fetchVideos_with, try_catch.
  match goal with
  | |- context [match ?b w with _ => _ end] =>
      assert (preserves (grew resolution_event) b) as Hbody
  end.
  { unfold items_absent, response_json, array_map, videoFromItem.
    along resolution_refl resolution_trans
      ltac:(first [ apply resolution_getChannelIdFromUsername
                  | apply resolution_fetch ]). }
  match goal with
  | |- context [match ?b w with _ => _ end] =>
      destruct (b w) as [[v|e] w1] eqn:E
  end.
  - intros [= <- <-]. exists w1. split; [eapply Hbody, E|].
    split; [reflexivity|]. exact (fetchVideos_returns this _ _ _ Hrun0).
  - plumbing. intros [= <- <-]. exists w1. split; [eapply Hbody, E|].
    reflexivity.
Qed.

(** X4. [fetchVideos] fulfils with an array, and then nothing is reported
    in its name; it rejects with the error it reported last on the console,
    under "Error in fetchVideos:". Before that its trace holds requests and
    the reports of the resolution steps only. *)
Theorem fetchVideos_reports_rejection (this : YouTubeChannelVideos)
    (w : world) (r : result jsval) (w' : world) :
  fetchVideos this w = (r, w') ->
  exists evs,
    Forall resolution_event evs /\
    match r with
    | Ok v => trace w' = trace w ++ evs /\ exists l, v = JArr l
    | Throw e =>
        trace w' =
          trace w ++ evs ++ [EConsoleError "Error in fetchVideos:" (Some e)]
    end.
Proof.
  intros Hrun.
  destruct (fetchVideos_outcome this w r w' Hrun) as (w1 & (evs & Ht & Hevs) & Hr).
  exists evs. split; [exact Hevs|]. destruct r as [v|e].
  - destruct Hr as [-> Harr]. auto.
  - injection Hr as ->. cbn [trace emit]. rewrite Ht, app_assoc. reflexivity.
Qed.

(** *** The stages of [fetchVideos] *)

Lemma resolved (this : YouTubeChannelVideos) (resolution : M jsval)
    (w w1 : world) (channel : jsval) :
  resolution w = (Ok channel, w1) ->
  fetchVideos_with this resolution w = fetchVideos_with this (ret channel) w1.
Proof.
  intros Hres. unfold fetchVideos_with, try_catch. unfold bind at 1.
  rewrite Hres. reflexivity.
Qed.

Lemma fetch_answered {A} (url : string) (data : jsval) (e : jserror)
    (k : jsval -> M A) (h : jserror -> M A) (w : world) :
  answers url data ->
  try_catch
    (let! response := fetch url in
     if negb (ok response) then throw e
     else let! data := response_json response in k data) h w =
  try_catch (k data) h (requested url w).
Proof.
  intros (response & Hresponse & Hok & Hbody).
  rewrite try_catch_bind. unfold fetch. rewrite Hresponse, Hok. cbn [negb].
  unfold response_json. rewrite Hbody. reflexivity.
Qed.

Lemma items_present (data items : jsval) (w : world) :
  has_items data items -> items_absent data w = (Ok false, w).
Proof.
  intros (Hitems & Ht & len & Hlen & Hz). unfold items_absent. plumbing.
  rewrite Hitems, Ht. cbn [negb]. rewrite Hlen, Hz. reflexivity.
Qed.

Lemma read_ok {A} (v x : jsval) (name : string) (k : jsval -> M A)
    (h : jserror -> M A) (w : world) :
  get_prop v name = Ok x ->
  try_catch (let! y := lift (get_prop v name) in k y) h w = try_catch (k x) h w.
Proof. intros H. rewrite try_catch_bind. unfold lift. rewrite H. reflexivity. Qed.

Lemma print_ok {A} (v : jsval) (text : string) (k : string -> M A)
    (h : jserror -> M A) (w : world) :
  to_string v = Ok text ->
  try_catch (let! s := lift (to_string v) in k s) h w = try_catch (k text) h w.
Proof. intros H. rewrite try_catch_bind. unfold lift. rewrite H. reflexivity. Qed.

Lemma channel_request_fails (this : YouTubeChannelVideos) (channel : jsval)
    (id : string) (e : jserror) (w : world) :
  truthy channel = true ->
  to_string channel = Ok id ->
  channel_failure (channel_details_url this id) e ->
  fetchVideos_with this (ret channel) w =
    rejected e (requested (channel_details_url this id) w).
Proof.
  intros Ht Hid Hfail. unfold fetchVideos_with.
  rewrite try_catch_bind. unfold ret at 1. rewrite Ht. cbn [negb].
  rewrite (print_ok _ _ _ _ _ Hid).
  destruct Hfail as [Hnone | response Hsome Hok | response Hsome Hok Hbody
                    | data Hdata Hnone].
  - rewrite try_catch_bind. unfold fetch. rewrite Hnone. reflexivity.
  - rewrite try_catch_bind. unfold fetch. rewrite Hsome, Hok. reflexivity.
  - rewrite try_catch_bind. unfold fetch. rewrite Hsome, Hok. cbn [negb].
    unfold response_json. rewrite Hbody. reflexivity.
  - rewrite (fetch_answered _ _ _ _ _ _ Hdata).
    rewrite try_catch_bind, (items_absent_no_items _ _ Hnone). reflexivity.
Qed.

Lemma playlist_requested (this : YouTubeChannelVideos) (channel : jsval)
    (id playlistId : string) (data data2 : jsval) (w : world) :
  truthy channel = true ->
  to_string channel = Ok id ->
  answers (channel_details_url this id) data ->
  uploads_playlist data playlistId ->
  answers (playlist_items_url this playlistId) data2 ->
  let w2 :=
    requested (playlist_items_url this playlistId)
      (requested (channel_details_url this id) w) in
  fetchVideos_with this (ret channel) w =
    try_catch
      (let! empty := items_absent data2 in
       if empty then ret (JArr [])
       else
         let! videoItems := lift (get_prop data2 "items") in
         array_map videoFromItem videoItems)
      (fun error =>
         do! console_error "Error in fetchVideos:" (Some error) in
         throw error) w2.
Proof.
  intros Ht Hid Hdata (items & item & contentDetails & relatedPlaylists
                       & playlist & Hitems & Hitem & Hcd & Hrp & Hup & Hpl)
    Hdata2 w2.
  unfold fetchVideos_with.
  rewrite try_catch_bind. unfold ret at 1. rewrite Ht. cbn [negb].
  rewrite (print_ok _ _ _ _ _ Hid).
  rewrite (fetch_answered _ _ _ _ _ _ Hdata).
  rewrite try_catch_bind, (items_present _ _ _ Hitems).
  rewrite (read_ok _ _ _ _ _ _ (proj1 Hitems)).
  rewrite try_catch_bind. unfold lift at 1. rewrite Hitem.
  rewrite (read_ok _ _ _ _ _ _ Hcd), (read_ok _ _ _ _ _ _ Hrp),
    (read_ok _ _ _ _ _ _ Hup).
  rewrite (print_ok _ _ _ _ _ Hpl).
  rewrite (fetch_answered _ _ _ _ _ _ Hdata2). reflexivity.
Qed.

Lemma fetchVideos_resolved (this : YouTubeChannelVideos) (w w1 : world)
    (id : string) :
  resolves this w id w1 ->
  exists channel,
    truthy channel = true /\
    to_string channel = Ok id /\
    fetchVideos this w = fetchVideos_with this (ret channel) w1.
Proof.
  intros [(Hid & -> & ->) | (Hid & Hname & channel & Hres & Ht & Htext)].
  - exists (JStr (channelId (opts this))).
    split; [apply truthy_string, Hid|]. split; [reflexivity|].
    rewrite (fetchVideos_with_id this Hid). reflexivity.
  - exists channel. split; [exact Ht|]. split; [exact Htext|].
    apply truthy_string in Hname.
    rewrite fetchVideos_split, Hid, Hname. cbn [truthy String.eqb negb andb].
    apply resolved, Hres.
Qed.

(** X5. Without a channel identifier and without a handle, and also when the
    resolution of the handle answers nothing truthy, [fetchVideos] rejects
    with "Could not determine channel ID", reported once, and requests no
    channel data: its world is the one the resolution left. *)
Theorem fetchVideos_without_channel (this : YouTubeChannelVideos) (w : world) :
  channelId (opts this) = EmptyString ->
  (channelUsername (opts this) = EmptyString ->
   fetchVideos this w = rejected (Error "Could not determine channel ID") w) /\
  (forall v w1,
     channelUsername (opts this) <> EmptyString ->
     getChannelIdFromUsername this w = (Ok v, w1) ->
     truthy v = false ->
     fetchVideos this w = rejected (Error "Could not determine channel ID") w1).
Proof.
  intros Hid. split.
  - intros Hname. rewrite fetchVideos_split, Hid, Hname. reflexivity.
  - intros v w1 Hname Hres Hv.
    apply (fetchVideos_unresolved this w w1 v); assumption.
Qed.

(** X6. When the request for the channel fails, [fetchVideos] rejects with
    the error of the cause (the network error, "Failed to fetch channel
    data" for a status that is not ok, the syntax error of a body that is
    not JSON, "Channel not found" for an answer without items), reported
    once, and the playlist is never requested. *)
Theorem fetchVideos_stops_at_channel (this : YouTubeChannelVideos)
    (w w1 : world) (id : string) (e : jserror) :
  resolves this w id w1 ->
  channel_failure (channel_details_url this id) e ->
  fetchVideos this w =
    rejected e (requested (channel_details_url this id) w1).
Proof.
  intros Hres Hfail.
  destruct (fetchVideos_resolved _ _ _ _ Hres) as (channel & Ht & Hid & ->).
  apply channel_request_fails; assumption.
Qed.

(** X7. When the channel's uploads playlist is answered without items,
    [fetchVideos] fulfils with the empty array after its two requests, and
    reports nothing. *)
Theorem fetchVideos_empty_playlist (this : YouTubeChannelVideos)
    (w w1 : world) (id playlistId : string) (data data2 : jsval) :
  resolves this w id w1 ->
  answers (channel_details_url this id) data ->
  uploads_playlist data playlistId ->
  answers (playlist_items_url this playlistId) data2 ->
  no_items data2 ->
  fetchVideos this w =
    (Ok (JArr []),
     requested (playlist_items_url this playlistId)
       (requested (channel_details_url this id) w1)).
Proof.
  intros Hres Hdata Hup Hdata2 Hnone.
  destruct (fetchVideos_resolved _ _ _ _ Hres) as (channel & Ht & Hid & ->).
  rewrite (playlist_requested _ _ _ _ _ _ _ Ht Hid Hdata Hup Hdata2).
  rewrite try_catch_bind, (items_absent_no_items _ _ Hnone). reflexivity.
Qed.





End Fetching.

(** ** The cache between runs *)

Section Cache.

Context {B : Browser}.

Lemma decoded_entry (st : gmap string string) (key text : string)
    (videos : jsval) (capturedAt : Z) :
  decodes text videos capturedAt ->
  cached (<[key := text]> st) key videos capturedAt.
Proof.
  intros (Hne & parsed & Hparse & Hv & Ht). exists text, parsed.
  split; [apply lookup_insert_eq | auto].
Qed.

(** X9. What one widget saves, a widget with the same cache key reads back:
    when the storage accepts the write and [JSON.parse] reads the stored
    text back as an entry, a cache check at any moment up to the capture
    time plus the reader's time-to-live answers the decoded records and
    leaves the entry; a later check answers [null] and removes it. *)
Theorem cache_round_trip (writer reader : YouTubeChannelVideos)
    (videos decoded : jsval) (w : world) (now : Z) :
  cacheKey reader = cacheKey writer ->
  quota_exceeded (store w) (cacheKey writer)
    (cache_text videos (clock w)) = false ->
  decodes (cache_text videos (clock w)) decoded (clock w) ->
  let w1 := at_time now (snd (saveToCache writer videos w)) in
  store w1 !! cacheKey writer = Some (cache_text videos (clock w)) /\
  (now <= clock w + cacheExpiration (opts reader) * 1000 ->
   getFromCache reader w1 = (Ok decoded, emit (EGetItem (cacheKey writer)) w1)) /\
  (clock w + cacheExpiration (opts reader) * 1000 < now ->
   exists w2,
     getFromCache reader w1 = (Ok JNull, w2) /\
     store w2 = delete (cacheKey writer) (store w)).
Proof.
  intros Hkey Hroom Hdec w1.
  assert (store w1 =
          <[cacheKey writer := cache_text videos (clock w)]> (store w)) as Hst.
  { unfold w1. rewrite saveToCache_run. cbv zeta. rewrite Hroom. reflexivity. }
  assert (cached (store w1) (cacheKey reader) decoded (clock w)) as Hentry
    by (rewrite Hst, Hkey; apply decoded_entry, Hdec).
  assert (clock w1 = now) as Hnow by reflexivity.
  split; [rewrite Hst; apply lookup_insert_eq|].
  rewrite (getFromCache_entry _ _ _ _ Hentry), Hnow, Hkey. split.
  - intros Hfresh.
    replace (_ <? _)%Z with false by (symmetry; apply Z.ltb_ge; lia).
    reflexivity.
  - intros Hlate. apply Z.ltb_lt in Hlate. rewrite Hlate.
    eexists. split; [reflexivity|]. cbn [store]. rewrite Hst.
    apply delete_insert_eq.
Qed.

Lemma append_cancel (prefix a b : string) :
  prefix +:+ a = prefix +:+ b -> a = b.
Proof.
  induction prefix as [|c prefix IH]; cbn [String.app]; [auto|].
  intros [= H]. auto.
Qed.

(** X12. The cache key is the channel's name behind a fixed prefix: two
    configurations get the same key exactly when they name the same
    channel, by identifier or else by handle, whatever else they set. *)
Theorem cacheKey_names_the_channel (o1 o2 : options) :
  cacheKey (constructor o1) = "youtube-videos-" +:+ channel_name o1 /\
  (cacheKey (constructor o1) = cacheKey (constructor o2) <->
   channel_name o1 = channel_name o2).
Proof.
  assert (forall o, cacheKey (constructor o) =
                    "youtube-videos-" +:+ channel_name o) as Hkey.
  { intros o. unfold constructor, channel_name. cbn [cacheKey truthy].
    destruct (String.eqb (channelId o) EmptyString); reflexivity. }
  split; [apply Hkey|]. rewrite !Hkey. split.
  - apply append_cancel.
  - intros ->. reflexivity.
Qed.

End Cache.

(** ** Whole runs of [init] *)

Section Runs.

Context {B : Browser}.

(** X10. A run that fetched records and cached them spares the next one the
    network: when [JSON.parse] reads the stored text back as an entry, a
    second run on the storage the first one left, at any moment up to the
    capture time plus the time-to-live, reads the entry and calls
    [renderVideos] on the decoded records, and does nothing else. *)
Theorem init_second_run_uses_cache (this : YouTubeChannelVideos)
    (w w1 w2 : world) (records : list jsval) (decoded : jsval)
    (r : result unit) (w' : world) (later : Z) :
  loading this w w1 ->
  fetchVideos this w1 = (Ok (JArr records), w2) ->
  records <> [] ->
  quota_exceeded (store w2) (cacheKey this)
    (cache_text (JArr records) (clock w2)) = false ->
  decodes (cache_text (JArr records) (clock w2)) decoded (clock w2) ->
  truthy decoded = true ->
  init this w = (r, w') ->
  later <= clock w2 + cacheExpiration (opts this) * 1000 ->
  exists r2 w'',
    init this (start (store w') later) = (r2, w'') /\
    trace w'' = [EGetItem (cacheKey this); ERenderVideos decoded] /\
    fetches (trace w'') = [] /\
    store w'' = store w'.
Proof.
  intros Hload Hfetch Hne Hroom Hdec Htruthy Hrun Hlater.
  assert (store w' =
          <[cacheKey this := cache_text (JArr records) (clock w2)]> (store w2))
    as Hst.
  { revert Hrun.
    rewrite (init_loading _ _ _ Hload), (chain_after_fetch _ _ _ _ Hfetch Hne).
    rewrite saveToCache_run. cbv zeta. rewrite Hroom. cbn [snd].
    match goal with
    | |- context [try_catch _ _ ?w3] =>
        destruct (render_or_reject_run this (JArr records) w3)
          as (r0 & evs & -> & _)
    end.
    intros [= _ <-]. reflexivity. }
  assert (cached (store w') (cacheKey this) decoded (clock w2)) as Hentry
    by (rewrite Hst; apply decoded_entry, Hdec).
  assert (Hget := getFromCache_entry this (start (store w') later) _ _ Hentry).
  cbn [clock start] in Hget.
  replace (_ <? _)%Z with false in Hget by (symmetry; apply Z.ltb_ge; lia).
  destruct Hload as [Hvalid _].
  rewrite (init_hit _ _ _ _ Hvalid Hget Htruthy).
  match goal with
  | |- context [renderVideos ?v ?w0] =>
      destruct (renderVideos_call v w0) as [r2 Hcall]
  end.
  exists r2. eexists. split; [exact Hcall|]. repeat split.
Qed.

(** *** The keys of the storage *)

Lemma elsewhere_refl (key : string) (w : world) : elsewhere_untouched key w w.
Proof. intros k _. reflexivity. Qed.

Lemma elsewhere_trans (key : string) (w1 w2 w3 : world) :
  elsewhere_untouched key w1 w2 -> elsewhere_untouched key w2 w3 ->
  elsewhere_untouched key w1 w3.
Proof. intros H12 H23 k Hk. rewrite (H23 k Hk). apply H12, Hk. Qed.

Lemma elsewhere_same_store {A} (key : string) (m : M A) :
  (forall w r w', m w = (r, w') -> store w' = store w) ->
  preserves (elsewhere_untouched key) m.
Proof. intros Hm w r w' Hrun k _. rewrite (Hm _ _ _ Hrun). reflexivity. Qed.

Lemma elsewhere_log (key : string) (e : event) :
  preserves (elsewhere_untouched key) (log e).
Proof. apply elsewhere_same_store. intros w r w' [= <- <-]. reflexivity. Qed.

Lemma elsewhere_getItem (key : string) :
  preserves (elsewhere_untouched key) (localStorage_getItem key).
Proof. apply elsewhere_same_store. intros w r w' [= <- <-]. reflexivity. Qed.

Lemma elsewhere_setItem (key value : string) :
  preserves (elsewhere_untouched key) (localStorage_setItem key value).
Proof.
  intros w r w'. unfold localStorage_setItem.
  destruct (quota_exceeded _ _ _); intros [= <- <-] k Hk; cbn [store emit].
  - reflexivity.
  - apply lookup_insert_ne. congruence.
Qed.

Lemma elsewhere_removeItem (key : string) :
  preserves (elsewhere_untouched key) (localStorage_removeItem key).
Proof.
  intros w r w' [= <- <-] k Hk. cbn [store emit].
  apply lookup_delete_ne. congruence.
Qed.

Lemma elsewhere_fetchVideos (this : YouTubeChannelVideos) (key : string) :
  preserves (elsewhere_untouched key) (fetchVideos this).
Proof.
  apply elsewhere_same_store. intros w r w' Hrun.
  apply (fetchVideos_network this w r w' Hrun).
Qed.

Lemma elsewhere_createFallbackVideos (this : YouTubeChannelVideos)
    (key : string) :
  preserves (elsewhere_untouched key) (createFallbackVideos this).
Proof.
  apply elsewhere_same_store. intros w r w' Hrun.
  rewrite (createFallbackVideos_world _ _ _ _ Hrun). reflexivity.
Qed.

Lemma elsewhere_init (this : YouTubeChannelVideos) :
  preserves (elsewhere_untouched (cacheKey this)) (init this).
Proof.
  unfold init, then_catch, onFulfilled, onRejected, getFromCache, saveToCache,
    renderVideos, videoCard, showLoading, showError, nonempty,
    JSON_parse_or_throw, console_error, console_log.
  along (elsewhere_refl (cacheKey this)) (elsewhere_trans (cacheKey this))
    ltac:(first [ apply elsewhere_fetchVideos
                | apply elsewhere_createFallbackVideos
                | apply elsewhere_getItem
                | apply elsewhere_setItem
                | apply elsewhere_removeItem
                | apply elsewhere_log ]).
Qed.

(** X11. A run of [init] leaves every key of the storage but its own cache
    key as it found it. *)
Theorem init_touches_its_key_only (this : YouTubeChannelVideos) (w : world)
    (r : result unit) (w' : world) (k : string) :
  init this w = (r, w') ->
  k <> cacheKey this ->
  store w' !! k = store w !! k.
Proof. intros Hrun Hk. exact (elsewhere_init this w r w' Hrun k Hk). Qed.

(** *** Requests come first *)

Lemma quiet_refl (w : world) : grew not_request w w.
Proof. apply grew_refl. Qed.

Lemma quiet_trans (w1 w2 w3 : world) :
  grew not_request w1 w2 -> grew not_request w2 w3 -> grew not_request w1 w3.
Proof. apply grew_trans. Qed.

Lemma quiet_log (e : event) :
  not_request e -> preserves (grew not_request) (log e).
Proof. intros He w r w' [= <- <-]. apply grew_emit, He. Qed.

Lemma quiet_setItem (key value : string) :
  preserves (grew not_request) (localStorage_setItem key value).
Proof.
  intros w r w'. unfold localStorage_setItem.
  destruct (quota_exceeded _ _ _); intros [= <- <-];
    (exists [ESetItem key value]; split; [reflexivity | repeat constructor]).
Qed.

Lemma quiet_createFallbackVideos (this : YouTubeChannelVideos) :
  preserves (grew not_request) (createFallbackVideos this).
Proof.
  intros w r w' Hrun. rewrite (createFallbackVideos_world _ _ _ _ Hrun).
  apply grew_refl.
Qed.

Ltac quietly :=
  along quiet_refl quiet_trans
    ltac:(first [ apply quiet_createFallbackVideos
                | apply quiet_setItem
                | apply quiet_log; exact I ]).

Lemma quiet_renderVideos (videos : jsval) :
  preserves (grew not_request) (renderVideos videos).
Proof. unfold renderVideos, videoCard. quietly. Qed.

Lemma quiet_onRejected (this : YouTubeChannelVideos) (e : jserror) :
  preserves (grew not_request) (onRejected this e).
Proof.
  unfold onRejected, nonempty, console_error, console_log, showError.
  along quiet_refl quiet_trans
    ltac:(first [ apply quiet_createFallbackVideos
                | apply quiet_renderVideos
                | apply quiet_log; exact I ]).
Qed.

Lemma quiet_onFulfilled (this : YouTubeChannelVideos) (videos : jsval) :
  preserves (grew not_request) (onFulfilled this videos).
Proof.
  unfold onFulfilled, saveToCache, nonempty, console_error, console_log,
    showError.
  along quiet_refl quiet_trans
    ltac:(first [ apply quiet_createFallbackVideos
                | apply quiet_renderVideos
                | apply quiet_setItem
                | apply quiet_log; exact I ]).
Qed.

Lemma quiet_chain_end (this : YouTubeChannelVideos) (outcome : result jsval)
    (w2 : world) (r : result unit) (w' : world) :
  match outcome with
  | Ok videos =>
      try_catch (onFulfilled this videos) (onRejected this) w2
  | Throw e => onRejected this e w2
  end = (r, w') ->
  grew not_request w2 w'.
Proof.
  destruct outcome as [videos|e]; [|apply quiet_onRejected].
  apply (preserves_try_catch _ quiet_trans);
    [apply quiet_onFulfilled | intros e; apply quiet_onRejected].
Qed.

Lemma chain_splits (this : YouTubeChannelVideos) (w1 : world)
    (r : result unit) (w' : world) :
  then_catch (fetchVideos this) (onFulfilled this) (onRejected this) w1 = (r, w') ->
  exists outcome w2,
    fetchVideos this w1 = (outcome, w2) /\
    match outcome with
    | Ok videos =>
        try_catch (onFulfilled this videos) (onRejected this) w2
    | Throw e => onRejected this e w2
    end = (r, w').
Proof.
  unfold then_catch, try_catch, bind.
  destruct (fetchVideos this w1) as [[videos|e] w2]; intros Hrun;
    eexists _, _; (split; [reflexivity | exact Hrun]).
Qed.

Lemma preparation_checked (key : string) (w : world) (v : jsval) (w0 : world) :
  cache_checked key w v w0 -> grew preparation_event w w0.
Proof.
  intros [v' evs Hevs|]; eexists; (split; [reflexivity|]).
  - constructor; [exact I|].
    eapply List.Forall_impl; [|exact Hevs]. intros [] H; try contradiction; exact I.
  - repeat constructor.
Qed.

(** X14. In every run of [init] the requests come first and are four at
    most: the trace of the run splits into a preparation (the cache check,
    the loading state, requests and console errors) and a rest without any
    request, in which the cache is written and the videos or the error are
    shown. *)
Theorem init_requests_come_first (this : YouTubeChannelVideos) (w : world)
    (r : result unit) (w' : world) :
  init this w = (r, w') ->
  exists before after,
    trace w' = trace w ++ before ++ after /\
    Forall preparation_event before /\
    (length (fetches before) <= 4)%nat /\
    Forall not_request after.
Proof.
  destruct (valid_configuration this) eqn:Hvalid.
  2: { destruct (init_aborts this w Hvalid) as [msg ->]. intros [= <- <-].
       exists [], [EConsoleError msg None]. cbn [trace emit app fetches length].
       repeat split; auto; try lia. repeat constructor. }
  rewrite (init_checks_cache _ _ Hvalid).
  destruct (getFromCache_checked this w) as (v & w0 & -> & Hchk).
  pose proof (preparation_checked _ _ _ _ Hchk) as (evs0 & Ht0 & Hevs0).
  assert (fetches evs0 = []) as Hf0.
  { destruct Hchk as [v' evs Hevs|].
    - apply app_inv_head in Ht0. subst evs0. cbn [fetches].
      clear - Hevs. induction Hevs as [|e evs He _ IH]; [reflexivity|].
      destruct e; try contradiction. exact IH.
    - cbn [trace] in Ht0. apply app_inv_head in Ht0. subst evs0. reflexivity. }
  destruct (truthy v).
  - destruct (renderVideos_call v w0) as [r0 ->]. intros [= <- <-].
    exists evs0, [ERenderVideos v]. cbn [trace emit].
    rewrite Ht0, Hf0, <- app_assoc. repeat split; auto; cbn; try lia.
    repeat constructor.
  - intros Hrun. apply chain_splits in Hrun as (outcome & w2 & Hfetch & Hend).
    apply fetchVideos_spends in Hfetch as (_ & evs1 & Ht1 & Hevs1 & Hn1).
    apply quiet_chain_end in Hend as (evs2 & Ht2 & Hevs2).
    exists (evs0 ++ EShowLoading :: evs1), evs2.
    rewrite Ht2, Ht1. cbn [trace emit]. rewrite Ht0, <- !app_assoc.
    split; [reflexivity|]. split; [|split; [|exact Hevs2]].
    + apply Forall_app. split; [exact Hevs0|]. constructor; [exact I|].
      eapply List.Forall_impl; [|exact Hevs1].
      intros [] H; try contradiction; exact I.
    + rewrite fetches_app, Hf0. cbn [fetches app]. exact Hn1.
Qed.

(** *** How a run ends *)

Lemma renderVideos_ends (videos : jsval) (w0 w w' : world) :
  grew not_request w0 w ->
  renderVideos videos w = (Ok tt, w') ->
  exists pre last, trace w' = trace w0 ++ pre ++ [last] /\ view_event last.
Proof.
  intros (pre & Hpre & _) Hrun.
  destruct (renderVideos_call videos w) as [r Hcall].
  rewrite Hcall in Hrun. injection Hrun as _ <-.
  exists pre, (ERenderVideos videos). cbn [trace emit]. rewrite Hpre, app_assoc.
  split; [reflexivity | exact I].
Qed.

Lemma onRejected_ends (this : YouTubeChannelVideos) (e : jserror)
    (w0 w w' : world) :
  grew not_request w0 w ->
  onRejected this e w = (Ok tt, w') ->
  exists pre last, trace w' = trace w0 ++ pre ++ [last] /\ view_event last.
Proof.
  intros (pre & Hpre & _) Hrun.
  destruct (onRejected_cases this e w _ _ Hrun)
    as [(e' & [=] & _) | [[_ ->] | (fallback & _ & ->)]].
  - exists (pre ++ [EConsoleError "Error fetching YouTube videos:" (Some e)]),
      (EShowError "Failed to load videos").
    cbn [trace emit]. rewrite Hpre, <- !app_assoc.
    split; [reflexivity | exact I].
  - exists (pre ++ [EConsoleError "Error fetching YouTube videos:" (Some e);
                    EConsoleLog "Using fallback videos due to API error"]),
      (ERenderVideos (JArr fallback)).
    cbn [trace emit]. rewrite Hpre, <- !app_assoc.
    split; [reflexivity | exact I].
Qed.

Lemma nonempty_run (videos : jsval) (w : world) :
  exists r, nonempty videos w = (r, w).
Proof.
  unfold nonempty. plumbing. destruct (get_prop videos "length");
    eexists; reflexivity.
Qed.

Lemma onFulfilled_ends (this : YouTubeChannelVideos) (videos : jsval)
    (w0 w w' : world) :
  grew not_request w0 w ->
  onFulfilled this videos w = (Ok tt, w') ->
  exists pre last, trace w' = trace w0 ++ pre ++ [last] /\ view_event last.
Proof.
  intros Hpre. unfold onFulfilled. unfold bind at 1.
  assert (exists r, (if truthy videos then nonempty videos else ret false) w
                    = (r, w)) as [r ->].
  { destruct (truthy videos); [apply nonempty_run | eexists; reflexivity]. }
  destruct r as [[|]|e]; [| |discriminate].
  - unfold bind at 1.
    destruct (saveToCache this videos w) as [[[]|e] w1] eqn:Hsave;
      [|discriminate].
    apply renderVideos_ends. eapply quiet_trans; [exact Hpre|].
    revert Hsave. unfold saveToCache. 
    match goal with
    | |- ?m w = _ -> _ => assert (preserves (grew not_request) m) as Hq
    end.
    { unfold console_error.
      along quiet_refl quiet_trans
        ltac:(first [ apply quiet_setItem | apply quiet_log; exact I ]). }
    apply Hq.
  - unfold bind at 1.
    destruct (createFallbackVideos this w) as [[fallback|e] w1] eqn:Hfb;
      [|discriminate].
    apply createFallbackVideos_world in Hfb as ->.
    unfold bind at 1.
    destruct (nonempty_run fallback w) as [[[|]|e] ->]; [| |discriminate].
    + unfold bind at 1, console_log, log. apply renderVideos_ends.
      eapply quiet_trans; [exact Hpre|]. apply grew_emit. exact I.
    + unfold showError, log. intros [= <-].
      destruct Hpre as (pre & Hpre & _).
      exists pre, (EShowError "No videos found"). cbn [trace emit].
      rewrite Hpre, app_assoc. split; [reflexivity | exact I].
Qed.

Lemma init_last_call (this : YouTubeChannelVideos) (w w' : world) :
  valid_configuration this = true ->
  init this w = (Ok tt, w') ->
  exists pre last,
    trace w' = trace w ++ pre ++ [last] /\ view_event last.
Proof.
  intros Hvalid. rewrite (init_checks_cache _ _ Hvalid).
  destruct (getFromCache_checked this w) as (v & w0 & -> & Hchk).
  assert (grew not_request w w0) as Hpre.
  { destruct Hchk as [v' evs Hevs|]; eexists; (split; [reflexivity|]).
    - constructor; [exact I|]. eapply List.Forall_impl; [|exact Hevs].
      intros [] H; try contradiction; exact I.
    - repeat constructor. }
  destruct (truthy v); [apply renderVideos_ends, Hpre|].
  intros Hrun. apply chain_splits in Hrun as (outcome & w2 & Hfetch & Hend).
  apply fetchVideos_network in Hfetch as [_ (evs & Ht & _)].
  assert (exists pre, trace w2 = trace w ++ pre) as [pre2 Hpre2].
  { destruct Hpre as (pre & Hp & _). rewrite Ht. cbn [trace emit].
    rewrite Hp, <- !app_assoc. eexists; reflexivity. }
  (* from [w2] on, the trace of the run is compared with the one at [w2] *)
  assert (exists pre last,
            trace w' = trace w2 ++ pre ++ [last] /\ view_event last)
    as (pre & last & Ht' & Hlast).
  { destruct outcome as [videos|e].
    - revert Hend. unfold try_catch.
      destruct (onFulfilled this videos w2) as [[[]|e] w3] eqn:Hful.
      + intros [= <-]. exact (onFulfilled_ends _ _ _ _ _ (quiet_refl w2) Hful).
      + apply onRejected_ends. exact (quiet_onFulfilled _ _ _ _ _ Hful).
    - revert Hend. apply onRejected_ends, quiet_refl. }
  exists (pre2 ++ pre), last. rewrite Ht', Hpre2, <- !app_assoc.
  split; [reflexivity | exact Hlast].
Qed.

(** X13. Every run of [init] on a configuration that passes the guards, if
    it ends without an exception, ends with a call that replaces the
    loading state: the last call of the run is [renderVideos] or
    [showError]. *)
Theorem init_ends_in_a_view (this : YouTubeChannelVideos) (w w' : world) :
  valid_configuration this = true ->
  init this w = (Ok tt, w') ->
  exists pre last,
    trace w' = trace w ++ pre ++ [last] /\ view_event last.
Proof. apply init_last_call. Qed.

End Runs.

(** ** The page *)

Section Pages.

Context {B : Browser}.

Lemma gt_length (l : list jsval) :
  gt_num (JNum (Z.of_nat (length l))) 0 =
    Ok (match l with [] => false | _ => true end).
Proof.
  unfold gt_num. cbn [to_number and_then]. destruct l; reflexivity.
Qed.

(** X15. [renderVideos] on an array whose records all make a card shows
    every record exactly once and in the order of the array: the page holds
    the heading, then the first record as the featured video and the others
    in the grid when the option is on, or all of them in the grid when it is
    off, then the link to the channel; the loading indicator is hidden and
    what the container held before is gone. *)
Theorem renderVideos_shows_every_record (o : options) (l : list jsval)
    (heading : string) (cards : list Page.card) (d : Page.document) :
  Page.heading_of (JArr l) = Ok heading ->
  Page.cards_of l = Ok cards ->
  exists d',
    Page.renderVideos o (JArr l) d = (Ok tt, d') /\
    Page.indicator d' = "none" /\
    Page.children d' =
      Page.ChannelInfo heading ::
      (if featuredVideo o then
         match cards with
         | first :: rest => [Page.Featured first; Page.Grid rest]
         | [] => [Page.Grid []]
         end
       else [Page.Grid cards]) ++
      [Page.ViewMore (Page.channel_link o)] /\
    shown d' = cards.
Proof.
  intros Hheading Hcards. unfold Page.renderVideos. rewrite Hheading.
  unfold Page.featured_of, Page.grid_of. cbn [get_prop String.eqb Ascii.eqb Bool.eqb and_then].
  destruct (featuredVideo o).
  - rewrite gt_length. cbn [and_then].
    destruct l as [|video rest].
    + cbn in Hcards. injection Hcards as <-.
      eexists. split; [reflexivity|]. repeat split.
    + cbn [Page.cards_of] in Hcards. cbn [get_first hd and_then].
      destruct (Page.card_of video) as [c|e]; [|discriminate].
      cbn [and_then] in Hcards.
      destruct (Page.cards_of rest) as [cs|e] eqn:Hrest; [|discriminate].
      injection Hcards as <-.
      cbn. rewrite skipn_O, Hrest.
      eexists. split; [reflexivity|]. repeat split.
      unfold shown. cbn. rewrite app_nil_r. reflexivity.
  - rewrite skipn_O, Hcards.
    eexists. split; [reflexivity|]. repeat split.
    unfold shown. cbn. rewrite app_nil_r. reflexivity.
Qed.

Lemma card_of_well_formed (video : jsval) (c : Page.card) :
  Page.card_of video = Ok c -> well_formed video.
Proof.
  unfold Page.card_of, well_formed.
  destruct (Page.videoUrl video) as [url|]; [|discriminate]. cbn [and_then].
  destruct (to_string url) as [link|]; [|discriminate]. cbn [and_then].
  destruct (get_prop video "thumbnail") as [thumbnail|] eqn:Hthumbnail;
    [|discriminate].
  cbn [and_then].
  destruct (get_prop thumbnail "url") as [address|] eqn:Haddress;
    [|discriminate].
  intros _. exists thumbnail, address. split; reflexivity || assumption.
Qed.

Lemma cards_of_well_formed (l : list jsval) (cards : list Page.card) :
  Page.cards_of l = Ok cards -> Forall well_formed l.
Proof.
  revert cards. induction l as [|video rest IH]; intros cards; [constructor|].
  cbn [Page.cards_of].
  destruct (Page.card_of video) as [c|] eqn:Hc; [|discriminate].
  cbn [and_then].
  destruct (Page.cards_of rest) as [cs|] eqn:Hcs; [|discriminate].
  intros _. constructor; [exact (card_of_well_formed _ _ Hc) | eauto].
Qed.

(** X16. The trace-level [renderVideos] of the pipeline is sound for the
    page: whenever the page-level [renderVideos] completes, its argument is
    an array of records that all have a thumbnail, and the trace-level one
    completes too, with its call as the only event. *)
Theorem page_render_refines_call (o : options) (videos : jsval)
    (d d' : Page.document) (w : world) :
  Page.renderVideos o videos d = (Ok tt, d') ->
  (exists l, videos = JArr l /\ Forall well_formed l) /\
  renderVideos videos w = (Ok tt, emit (ERenderVideos videos) w).
Proof.
  intros Hrun.
  assert (exists l, videos = JArr l /\ Forall well_formed l) as Harray.
  { revert Hrun. unfold Page.renderVideos.
    destruct (Page.heading_of videos) as [heading|]; [|discriminate].
    destruct (Page.featured_of o videos) as [first|] eqn:Hfirst; [|discriminate].
    destruct (Page.grid_of videos _) as [cards|] eqn:Hgrid; [|discriminate].
    intros _. destruct videos; try discriminate Hgrid.
    exists items. split; [reflexivity|].
    cbn [Page.grid_of] in Hgrid. destruct first as [c|].
    - revert Hfirst. unfold Page.featured_of.
      destruct (featuredVideo o); [|discriminate].
      cbn [get_prop String.eqb Ascii.eqb Bool.eqb and_then].
      rewrite gt_length. cbn [and_then].
      destruct items as [|video rest]; [discriminate|].
      cbn [get_first hd and_then].
      destruct (Page.card_of video) as [c'|] eqn:Hc; [|discriminate].
      intros _. constructor; [exact (card_of_well_formed _ _ Hc)|].
      exact (cards_of_well_formed _ _ Hgrid).
    - exact (cards_of_well_formed _ _ Hgrid). }
  split; [exact Harray|].
  destruct Harray as (l & -> & Hl). apply renderVideos_records, Hl.
Qed.

Lemma renderVideos_hides (o : options) (videos : jsval) (d : Page.document) :
  Page.indicator (snd (Page.renderVideos o videos d)) = "none".
Proof.
  unfold Page.renderVideos.
  destruct (Page.heading_of videos); [|reflexivity].
  destruct (Page.featured_of o videos); [|reflexivity].
  destruct (Page.grid_of videos _); reflexivity.
Qed.

Lemma replay_app (this : YouTubeChannelVideos) (a b : list event)
    (d : Page.document) :
  replay this (a ++ b) d = replay this b (replay this a d).
Proof. apply fold_left_app. Qed.

(** X17. A run of [init] on a configuration that passes the guards, if it
    ends without an exception, leaves the loading indicator hidden, whatever
    the page was before: the last of its calls that touch the page is a
    [renderVideos] or a [showError], and both hide the indicator. *)
Theorem init_hides_the_indicator (this : YouTubeChannelVideos) (w w' : world) :
  valid_configuration this = true ->
  init this w = (Ok tt, w') ->
  exists evs,
    trace w' = trace w ++ evs /\
    forall d, Page.indicator (replay this evs d) = "none".
Proof.
  intros Hvalid Hrun.
  destruct (init_last_call this w w' Hvalid Hrun) as (pre & last & Ht & Hlast).
  exists (pre ++ [last]). split; [exact Ht|]. intros d.
  rewrite replay_app. cbn [replay fold_left].
  destruct last; try contradiction; cbn [page_after].
  - apply renderVideos_hides.
  - reflexivity.
Qed.

End Pages.

(** ** The further properties at concrete inputs *)

Section FurtherExamples.

Import Demo.

(** The bound of four requests is reached: by handle, the lookup by name, the
    search, the channel and the playlist are requested. *)
Lemma fetchVideos_requests_witness :
  requests_at_most 4 (fetchVideos (B := handled) handle_widget) /\
  fetches (trace (snd (fetchVideos (B := handled) handle_widget (start ∅ 5000)))) =
    [lookup_url; search_url; channel_url; uploads_url].
Proof.
  split; [|vm_compute; reflexivity].
  exact (proj1 (fetchVideos_requests (B := handled) handle_widget)).
Defined.

Lemma fetchVideos_reports_rejection_witness :
  fetchVideos (B := unplugged) (widget (JArr [])) asked =
    (Throw NetworkError, failed) /\
  exists evs,
    Forall resolution_event evs /\
    trace failed =
      trace asked ++ evs ++
      [EConsoleError "Error in fetchVideos:" (Some NetworkError)].
Proof.
  assert (Hrun : fetchVideos (B := unplugged) (widget (JArr [])) asked =
                 (Throw NetworkError, failed))
    by (vm_compute; reflexivity).
  split; [exact Hrun|].
  exact (fetchVideos_reports_rejection (B := unplugged) (widget (JArr []))
           asked (Throw NetworkError) failed Hrun).
Defined.

Lemma fetchVideos_without_channel_witness :
  channelId (opts handle_widget) = EmptyString /\
  channelUsername (opts handle_widget) <> EmptyString /\
  getChannelIdFromUsername (B := unplugged) handle_widget (start ∅ 5000) =
    (Ok JNull,
     {| store := ∅; clock := 5050;
        trace := [EFetch lookup_url;
                  EConsoleError "Error getting channel ID from username:"
                    (Some NetworkError)] |}) /\
  fetchVideos (B := unplugged) handle_widget (start ∅ 5000) =
    rejected (Error "Could not determine channel ID")
      {| store := ∅; clock := 5050;
         trace := [EFetch lookup_url;
                   EConsoleError "Error getting channel ID from username:"
                     (Some NetworkError)] |}.
Proof.
  assert (Hid : channelId (opts handle_widget) = EmptyString) by reflexivity.
  assert (Hname : channelUsername (opts handle_widget) <> EmptyString)
    by discriminate.
  assert (Hres : getChannelIdFromUsername (B := unplugged) handle_widget
                   (start ∅ 5000) =
                 (Ok JNull,
                  {| store := ∅; clock := 5050;
                     trace := [EFetch lookup_url;
                               EConsoleError
                                 "Error getting channel ID from username:"
                                 (Some NetworkError)] |}))
    by (vm_compute; reflexivity).
  split; [exact Hid|]. split; [exact Hname|]. split; [exact Hres|].
  exact (proj2 (fetchVideos_without_channel (B := unplugged) handle_widget
                  (start ∅ 5000) Hid) JNull _ Hname Hres eq_refl).
Defined.

Lemma widget_resolves (b : Browser) (fallback : jsval) (w : world) :
  resolves (B := b) (widget fallback) w "UC1" w.
Proof. left. split; [discriminate|]. split; reflexivity. Qed.

Lemma fetchVideos_stops_at_channel_witness :
  resolves (B := unplugged) (widget (JArr [])) asked "UC1" asked /\
  channel_failure (B := unplugged)
    (channel_details_url (widget (JArr [])) "UC1") NetworkError /\
  fetchVideos (B := unplugged) (widget (JArr [])) asked =
    rejected NetworkError
      (requested (B := unplugged)
         (channel_details_url (widget (JArr [])) "UC1") asked).
Proof.
  assert (Hres := widget_resolves unplugged (JArr []) asked).
  assert (Hfail : channel_failure (B := unplugged)
                    (channel_details_url (widget (JArr [])) "UC1") NetworkError)
    by (apply channel_unreachable; reflexivity).
  split; [exact Hres|]. split; [exact Hfail|].
  exact (fetchVideos_stops_at_channel (B := unplugged) (widget (JArr []))
           asked asked "UC1" NetworkError Hres Hfail).
Defined.

Lemma channel_answered (b : Browser) (fallback : jsval) :
  fetch_response (Browser := b) channel_url =
    Some {| ok := true; body := Some channel_body |} ->
  answers (B := b) (channel_details_url (widget fallback) "UC1") channel_body /\
  uploads_playlist (B := b) channel_body "UU1".
Proof.
  intros Hfetch. split.
  - eexists. split; [exact Hfetch|]. split; reflexivity.
  - eexists _, _, _, _, _.
    split; [split; [reflexivity|]; split; [reflexivity|];
            eexists; split; reflexivity
           |repeat split; reflexivity].
Qed.

Lemma fetchVideos_empty_playlist_witness :
  resolves (B := silent) (widget (JArr [])) asked "UC1" asked /\
  answers (B := silent) (channel_details_url (widget (JArr [])) "UC1")
    channel_body /\
  uploads_playlist (B := silent) channel_body "UU1" /\
  answers (B := silent) (playlist_items_url (widget (JArr [])) "UU1")
    (JObj [("items", JArr [])]) /\
  no_items (JObj [("items", JArr [])]) /\
  fetchVideos (B := silent) (widget (JArr [])) asked = (Ok (JArr []), answered).
Proof.
  assert (Hres := widget_resolves silent (JArr []) asked).
  destruct (channel_answered silent (JArr []) eq_refl) as [Hdata Hup].
  assert (Hdata2 : answers (B := silent)
                     (playlist_items_url (widget (JArr [])) "UU1")
                     (JObj [("items", JArr [])]))
    by (eexists; split; [reflexivity|]; split; reflexivity).
  assert (Hnone : no_items (JObj [("items", JArr [])]))
    by (eexists; split; [reflexivity|]; right; reflexivity).
  split; [exact Hres|]. split; [exact Hdata|]. split; [exact Hup|].
  split; [exact Hdata2|]. split; [exact Hnone|].
  exact (fetchVideos_empty_playlist (B := silent) (widget (JArr []))
           asked asked "UC1" "UU1" channel_body _ Hres Hdata Hup Hdata2 Hnone).
Defined.



Lemma cache_round_trip_witness :
  cacheKey (widget fallback_list) = cacheKey (widget (JArr [])) /\
  quota_exceeded (Browser := roomy) ∅ key
    (cache_text (B := roomy) (JArr [first_video]) 1000) = false /\
  decodes (B := roomy) (cache_text (B := roomy) (JArr [first_video]) 1000)
    (JArr [first_video]) 1000 /\
  2000 <= 1000 + cacheExpiration (opts (widget fallback_list)) * 1000 /\
  getFromCache (B := roomy) (widget fallback_list)
    (at_time 2000
       (snd (saveToCache (B := roomy) (widget (JArr [])) (JArr [first_video])
               (start ∅ 1000)))) =
    (Ok (JArr [first_video]),
     emit (EGetItem key)
       (at_time 2000
          (snd (saveToCache (B := roomy) (widget (JArr [])) (JArr [first_video])
                  (start ∅ 1000))))).
Proof.
  assert (Hkey : cacheKey (widget fallback_list) = cacheKey (widget (JArr [])))
    by reflexivity.
  assert (Hroom : quota_exceeded (Browser := roomy) (store (start ∅ 1000))
                    (cacheKey (widget (JArr [])))
                    (cache_text (B := roomy) (JArr [first_video])
                       (clock (start ∅ 1000))) = false)
    by reflexivity.
  assert (Hdec : decodes (B := roomy)
                   (cache_text (B := roomy) (JArr [first_video])
                      (clock (start ∅ 1000)))
                   (JArr [first_video]) (clock (start ∅ 1000))).
  { split; [intros H; vm_compute in H; discriminate H|].
    exists entry. repeat split; vm_compute; reflexivity. }
  assert (Hfresh : 2000 <= 1000 + cacheExpiration (opts (widget fallback_list)) * 1000)
    by (vm_compute; discriminate).
  split; [exact Hkey|]. split; [exact Hroom|]. split; [exact Hdec|].
  split; [exact Hfresh|].
  exact (proj1 (proj2 (cache_round_trip (B := roomy) (widget (JArr []))
                         (widget fallback_list) (JArr [first_video])
                         (JArr [first_video]) (start ∅ 1000) 2000
                         Hkey Hroom Hdec)) Hfresh).
Defined.

Lemma init_second_run_uses_cache_witness :
  loading (B := roomy) (widget (JArr [])) (start ∅ 5000) asked /\
  fetchVideos (B := roomy) (widget (JArr [])) asked = (Ok (JArr uploaded), answered) /\
  decodes (B := roomy) (cache_text (B := roomy) (JArr uploaded) 5100)
    (JArr cached_uploaded) 5100 /\
  6000 <= 5100 + cacheExpiration (opts (widget (JArr []))) * 1000 /\
  exists r2 w'',
    init (B := roomy) (widget (JArr []))
      (start (store (snd (init (B := roomy) (widget (JArr [])) (start ∅ 5000))))
         6000) = (r2, w'') /\
    trace w'' = [EGetItem key; ERenderVideos (JArr cached_uploaded)] /\
    fetches (trace w'') = [] /\
    store w'' =
      store (snd (init (B := roomy) (widget (JArr [])) (start ∅ 5000))).
Proof.
  assert (Hload := loading_asked roomy (JArr []) eq_refl).
  assert (Hfetch : fetchVideos (B := roomy) (widget (JArr [])) asked =
                   (Ok (JArr uploaded), answered))
    by (vm_compute; reflexivity).
  assert (Hne : uploaded <> []) by discriminate.
  assert (Hroom : quota_exceeded (Browser := roomy) (store answered)
                    (cacheKey (widget (JArr [])))
                    (cache_text (B := roomy) (JArr uploaded) (clock answered))
                  = false)
    by reflexivity.
  assert (Hdec : decodes (B := roomy)
                   (cache_text (B := roomy) (JArr uploaded) (clock answered))
                   (JArr cached_uploaded) (clock answered)).
  { split; [intros H; vm_compute in H; discriminate H|].
    exists cached_uploaded_entry. repeat split; vm_compute; reflexivity. }
  assert (Hrun : init (B := roomy) (widget (JArr [])) (start ∅ 5000) =
                 (Ok tt, snd (init (B := roomy) (widget (JArr [])) (start ∅ 5000))))
    by (vm_compute; reflexivity).
  assert (Hlater : 6000 <= clock answered
                           + cacheExpiration (opts (widget (JArr []))) * 1000)
    by (vm_compute; discriminate).
  split; [exact Hload|]. split; [exact Hfetch|]. split; [exact Hdec|].
  split; [exact Hlater|].
  exact (init_second_run_uses_cache (B := roomy) (widget (JArr []))
           (start ∅ 5000) asked answered uploaded (JArr cached_uploaded)
           (Ok tt) _ 6000 Hload Hfetch Hne Hroom Hdec eq_refl Hrun Hlater).
Defined.

Lemma init_touches_its_key_only_witness :
  "theme" <> cacheKey (widget (JArr [])) /\
  store (snd (init (B := roomy) (widget (JArr [])) (start furnished 5000)))
    !! "theme" = Some "dark" /\
  store (snd (init (B := roomy) (widget (JArr [])) (start furnished 5000)))
    !! key <> None.
Proof.
  assert (Hk : "theme" <> cacheKey (widget (JArr []))) by discriminate.
  assert (Hrun : init (B := roomy) (widget (JArr [])) (start furnished 5000) =
                 (Ok tt,
                  snd (init (B := roomy) (widget (JArr [])) (start furnished 5000))))
    by (vm_compute; reflexivity).
  split; [exact Hk|]. split; [|vm_compute; discriminate].
  exact (init_touches_its_key_only (B := roomy) (widget (JArr []))
           (start furnished 5000) (Ok tt) _ "theme" Hrun Hk).
Defined.

Lemma init_ends_in_a_view_witness :
  valid_configuration (widget (JArr [])) = true /\
  init (B := unplugged) (widget (JArr [])) (start ∅ 5000) =
    (Ok tt,
     emit (EShowError "Failed to load videos")
       (emit (EConsoleError "Error fetching YouTube videos:" (Some NetworkError))
          failed)) /\
  exists pre last,
    trace (emit (EShowError "Failed to load videos")
             (emit (EConsoleError "Error fetching YouTube videos:"
                      (Some NetworkError)) failed)) =
      trace (start ∅ 5000) ++ pre ++ [last] /\
    view_event last.
Proof.
  assert (Hvalid : valid_configuration (widget (JArr [])) = true) by reflexivity.
  assert (Hrun : init (B := unplugged) (widget (JArr [])) (start ∅ 5000) =
                 (Ok tt,
                  emit (EShowError "Failed to load videos")
                    (emit (EConsoleError "Error fetching YouTube videos:"
                             (Some NetworkError)) failed)))
    by (vm_compute; reflexivity).
  split; [exact Hvalid|]. split; [exact Hrun|].
  exact (init_ends_in_a_view (B := unplugged) (widget (JArr []))
           (start ∅ 5000) _ Hvalid Hrun).
Defined.

Lemma init_requests_come_first_witness :
  init (B := handled) handle_widget (start ∅ 5000) =
    (Ok tt, snd (init (B := handled) handle_widget (start ∅ 5000))) /\
  fetches (trace (snd (init (B := handled) handle_widget (start ∅ 5000)))) =
    [lookup_url; search_url; channel_url; uploads_url] /\
  exists before after,
    trace (snd (init (B := handled) handle_widget (start ∅ 5000))) =
      trace (start ∅ 5000) ++ before ++ after /\
    Forall preparation_event before /\
    (length (fetches before) <= 4)%nat /\
    Forall not_request after.
Proof.
  assert (Hrun : init (B := handled) handle_widget (start ∅ 5000) =
                 (Ok tt, snd (init (B := handled) handle_widget (start ∅ 5000))))
    by (vm_compute; reflexivity).
  split; [exact Hrun|]. split; [vm_compute; reflexivity|].
  exact (init_requests_come_first (B := handled) handle_widget (start ∅ 5000)
           (Ok tt) _ Hrun).
Defined.

Lemma renderVideos_shows_every_record_witness :
  Page.heading_of (B := unplugged) (JArr cached_uploaded) = Ok "Channel" /\
  Page.cards_of (B := unplugged) cached_uploaded = Ok uploaded_cards /\
  exists d',
    Page.renderVideos (B := unplugged) (opts handle_widget)
      (JArr cached_uploaded) loading_page = (Ok tt, d') /\
    Page.indicator d' = "none" /\
    Page.children d' =
      Page.ChannelInfo "Channel" ::
      (if featuredVideo (opts handle_widget) then
         match uploaded_cards with
         | first :: rest => [Page.Featured first; Page.Grid rest]
         | [] => [Page.Grid []]
         end
       else [Page.Grid uploaded_cards]) ++
      [Page.ViewMore (Page.channel_link (opts handle_widget))] /\
    shown d' = uploaded_cards.
Proof.
  assert (Hheading : Page.heading_of (B := unplugged) (JArr cached_uploaded) =
                     Ok "Channel") by reflexivity.
  assert (Hcards : Page.cards_of (B := unplugged) cached_uploaded = Ok uploaded_cards)
    by reflexivity.
  split; [exact Hheading|]. split; [exact Hcards|].
  exact (renderVideos_shows_every_record (B := unplugged) (opts handle_widget)
           cached_uploaded "Channel" uploaded_cards loading_page
           Hheading Hcards).
Defined.

Lemma page_render_refines_call_witness :
  Page.renderVideos (B := unplugged) (opts handle_widget)
    (JArr cached_uploaded) loading_page = (Ok tt, uploaded_page) /\
  (exists l, JArr cached_uploaded = JArr l /\ Forall well_formed l) /\
  renderVideos (JArr cached_uploaded) (start ∅ 5000) =
    (Ok tt, emit (ERenderVideos (JArr cached_uploaded)) (start ∅ 5000)).
Proof.
  assert (Hrun : Page.renderVideos (B := unplugged) (opts handle_widget)
                   (JArr cached_uploaded) loading_page =
                 (Ok tt, uploaded_page)) by reflexivity.
  split; [exact Hrun|].
  exact (page_render_refines_call (B := unplugged) (opts handle_widget)
           (JArr cached_uploaded) loading_page uploaded_page (start ∅ 5000)
           Hrun).
Defined.

Lemma init_hides_the_indicator_witness :
  valid_configuration (widget (JArr [])) = true /\
  init (B := unplugged) (widget (JArr [])) (start ∅ 5000) =
    (Ok tt,
     emit (EShowError "Failed to load videos")
       (emit (EConsoleError "Error fetching YouTube videos:" (Some NetworkError))
          failed)) /\
  exists evs,
    trace (emit (EShowError "Failed to load videos")
             (emit (EConsoleError "Error fetching YouTube videos:"
                      (Some NetworkError)) failed)) =
      trace (start ∅ 5000) ++ evs /\
    forall d, Page.indicator (replay (B := unplugged) (widget (JArr [])) evs d) = "none".
Proof.
  assert (Hvalid : valid_configuration (widget (JArr [])) = true) by reflexivity.
  assert (Hrun : init (B := unplugged) (widget (JArr [])) (start ∅ 5000) =
                 (Ok tt,
                  emit (EShowError "Failed to load videos")
                    (emit (EConsoleError "Error fetching YouTube videos:"
                             (Some NetworkError)) failed)))
    by (vm_compute; reflexivity).
  split; [exact Hvalid|]. split; [exact Hrun|].
  exact (init_hides_the_indicator (B := unplugged) (widget (JArr []))
           (start ∅ 5000) _ Hvalid Hrun).
Defined.

End FurtherExamples.
